(** * Liquid-Assassin: the detection-and-execution pipeline

    A shallow embedding of the parts of the repository that decide the
    specified properties, and the proofs of those properties:

    - [SimpleLiquidator]: the on-chain flash-loan liquidator
      (Solidity 0.8.20, checked 256-bit arithmetic);
    - [JsNumber]: the JavaScript numbers the TypeScript services compute with;
    - [AaveService]: health-factor aggregation, classification and the
      opportunity scan of [server/aave-service.ts];
    - [HealthFactorCalculator]: the liquidation-amount selection of the
      orchestrator;
    - [WebSocketManager]: the reconnection schedule of
      [server/websocket/websocket-manager.ts];
    - [DatabaseService]: the position upsert of the database layer.

    The embedding comes first, then the predicates and the sample data the
    statements use, then the proofs, one module per component. *)

From Stdlib Require Import ZArith QArith Qround Qpower Lia Lqa List Bool String Sorted Permutation.
From stdpp Require Import base option list gmap strings.

Local Open Scope Z_scope.

(* ===================================================================== *)
(** * The on-chain liquidator (SimpleLiquidator) *)
(* ===================================================================== *)

Module SimpleLiquidator.

(** ** Solidity values and aborts *)

Definition address := Z.
Definition MAX_UINT256 : Z := 2 ^ 256 - 1.
Definition is_uint256 (x : Z) : Prop := 0 <= x <= MAX_UINT256.

(** The contract's custom errors. *)
Inductive Error :=
| UnauthorizedCaller | InvalidInitiator | DeadlineExpired | InsufficientBalance
| ZeroAddress | ZeroAmount | InvalidSlippage | InsufficientProfit
| FlashLoanFailed | SlippageExceeded | InvalidPath | NoOutput
| TokenNotAllowed | GetAmountsOutFailed.

(** Every way a call can abort.  Solidity 0.8 reports overflow and underflow
    of checked arithmetic with the same panic code (0x11); they are kept
    apart here so that statements can tell them apart.  [ExternalRevert] is a
    revert of an external call that bubbles up (no try/catch around it);
    the three last ones are the reverts of the inherited modifiers. *)
Inductive Abort :=
| Revert (e : Error)
| PanicOverflow
| PanicUnderflow
| PanicDivisionByZero
| ExternalRevert
| ReentrantCall
| EnforcedPause
| NotOwner.

Inductive result (A : Type) :=
| Ok (a : A)
| Aborted (r : Abort).
Arguments Ok {A} a.
Arguments Aborted {A} r.

Definition bind {A B} (m : result A) (k : A -> result B) : result B :=
  match m with
  | Ok a => k a
  | Aborted r => Aborted r
  end.

Notation "x <- m ;; k" := (bind m (fun x => k))
  (at level 63, m at next level, right associativity).
Notation "'require' b 'else' r ;; k" :=
  (if b then k else Aborted r)
  (at level 63, b at next level, r at next level, right associativity).

(** Checked arithmetic on [uint256]. *)
Definition checked_add (a b : Z) : result Z :=
  if a + b <=? MAX_UINT256 then Ok (a + b) else Aborted PanicOverflow.

Definition checked_sub (a b : Z) : result Z :=
  if b <=? a then Ok (a - b) else Aborted PanicUnderflow.

Definition checked_mul (a b : Z) : result Z :=
  if a * b <=? MAX_UINT256 then Ok (a * b) else Aborted PanicOverflow.

Definition checked_div (a b : Z) : result Z :=
  if b =? 0 then Aborted PanicDivisionByZero else Ok (a / b).

(** ** Constants, storage and events *)

Definition FLASH_LOAN_PREMIUM_BPS : Z := 5.
Definition MAX_SLIPPAGE_BPS : Z := 1000.
Definition MIN_PROFIT_BPS : Z := 10.

Record Storage := mkStorage {
  totalProfitGenerated : Z;
  totalLiquidationsExecuted : Z;
  lastExecutor : address;
  paused : bool;
  owner : address;
  entered : bool            (* the ReentrancyGuard status *)
}.

(** The inherited modifiers follow OpenZeppelin's [ReentrancyGuard],
    [Pausable] and [Ownable]: [nonReentrant] refuses a call made while the
    guard is entered, enters it for the body and leaves it afterwards. *)
Definition withEntered (st : Storage) (b : bool) : Storage :=
  mkStorage (totalProfitGenerated st) (totalLiquidationsExecuted st)
    (lastExecutor st) (paused st) (owner st) b.

Inductive Event :=
| LiquidationExecuted (executor targetUser : address) (profitGenerated : Z)
    (profitToken : address) (amountSwapped gasUsed : Z)
| SwapExecuted (tokenIn tokenOut : address) (amountIn amountOut slippageBps : Z).

(** The immutables set by the constructor. *)
Record Immutables := mkImmutables {
  POOL : address;
  ROUTER : address;
  WETH : address
}.

(** ** executeLiquidation: the checks made at submission

    The function ends with the call [POOL.flashLoanSimple]; the embedding
    returns the storage the contract is in when that call is made (the
    guard entered, [lastExecutor = msg.sender]) and the arguments of the
    call. *)

(** [abi.encode(targetUser, collateralAsset, debtAsset, maxSlippageBps, deadline)] *)
Record Params := mkParams {
  p_targetUser : address;
  p_collateralAsset : address;
  p_debtAsset : address;
  p_maxSlippageBps : Z;
  p_deadline : Z
}.

Record FlashLoanRequest := mkRequest {
  req_asset : address;
  req_amount : Z;
  req_params : Params
}.

Definition executeLiquidation (st : Storage) (msg_sender : address) (block_timestamp : Z)
    (targetUser collateralAsset debtAsset : address)
    (debtAmount maxSlippageBps deadline : Z) : result (Storage * FlashLoanRequest) :=
  require negb (entered st) else ReentrantCall ;;
  require negb (paused st) else EnforcedPause ;;
  require (msg_sender =? owner st) else NotOwner ;;
  require negb (targetUser =? 0) else Revert ZeroAddress ;;
  require negb (collateralAsset =? 0) else Revert ZeroAddress ;;
  require negb (debtAsset =? 0) else Revert ZeroAddress ;;
  require negb (debtAmount =? 0) else Revert ZeroAmount ;;
  require negb (block_timestamp >? deadline) else Revert DeadlineExpired ;;
  require negb (maxSlippageBps >? MAX_SLIPPAGE_BPS) else Revert InvalidSlippage ;;
  Ok (mkStorage (totalProfitGenerated st) (totalLiquidationsExecuted st)
        msg_sender (paused st) (owner st) true,
      mkRequest debtAsset debtAmount
        (mkParams targetUser collateralAsset debtAsset maxSlippageBps deadline)).

(** ** _finalizeLiquidation: repayment and profit check

    The calls to the token are external; their outcomes are inputs:
    [finalBalance] is what [balanceOf] returns, and the two booleans tell
    whether [safeIncreaseAllowance] and [safeApprove] went through. *)

Record FinalizeCalls := mkFinalizeCalls {
  fin_balanceOf : Z;
  fin_increaseAllowance : bool;
  fin_approve : bool
}.

Definition _finalizeLiquidation (st : Storage) (tx_origin : address)
    (ext : FinalizeCalls) (asset : address) (amount premium : Z)
    (targetUser : address) : result (Storage * list Event * bool) :=
  let finalBalance := fin_balanceOf ext in
  totalRepayment <- checked_add amount premium ;;
  require negb (finalBalance <? totalRepayment) else Revert InsufficientBalance ;;
  profit <- checked_sub finalBalance totalRepayment ;;
  scaled <- checked_mul amount MIN_PROFIT_BPS ;;
  minProfit <- checked_div scaled 10000 ;;
  require negb (profit <? minProfit) else Revert InsufficientProfit ;;
  require fin_increaseAllowance ext else ExternalRevert ;;
  executed <- checked_add (totalLiquidationsExecuted st) 1 ;;
  generated <- checked_add (totalProfitGenerated st) profit ;;
  let executor := if negb (lastExecutor st =? 0) then lastExecutor st else tx_origin in
  let gasUsed := 0 in
  require fin_approve ext else ExternalRevert ;;
  Ok (mkStorage generated executed (lastExecutor st) (paused st) (owner st) (entered st),
      [LiquidationExecuted executor targetUser profit asset 0 gasUsed],
      true).

(** ** _executeSwap: quote, slippage floor and swap *)

Definition _buildSwapPath (im : Immutables) (tokenIn tokenOut : address) : list address :=
  if (tokenIn =? WETH im) || (tokenOut =? WETH im)
  then [tokenIn; tokenOut]
  else [tokenIn; WETH im; tokenOut].

(** [(expectedOut * (10000 - maxSlippageBps)) / 10000], each operation checked. *)
Definition minAmountOut (expectedOut maxSlippageBps : Z) : result Z :=
  keep <- checked_sub 10000 maxSlippageBps ;;
  scaled <- checked_mul expectedOut keep ;;
  checked_div scaled 10000.

(** The external calls of the swap step: the router's quote for a path
    ([None] when the call reverts), the balance of the output token before
    the swap, the outcome of the two allowance calls, and the swap itself,
    which given the floor and the path either reverts ([None]) or leaves
    the contract with a new balance of the output token. *)
Record SwapCalls := mkSwapCalls {
  sw_getAmountsOut : Z -> list address -> option (list Z);
  sw_balanceBefore : Z;
  sw_increaseAllowance : bool;
  sw_swap : Z -> Z -> list address -> Z -> option Z;
  sw_approve : bool
}.

Definition _executeSwap (im : Immutables) (block_timestamp : Z) (ext : SwapCalls)
    (tokenIn tokenOut : address) (amountIn maxSlippageBps deadline : Z)
    : result (list Event) :=
  require negb (deadline <? block_timestamp) else Revert DeadlineExpired ;;
  let path := _buildSwapPath im tokenIn tokenOut in
  match sw_getAmountsOut ext amountIn path with
  | None => Aborted (Revert GetAmountsOutFailed)
  | Some expectedAmounts =>
    require negb (Z.of_nat (length expectedAmounts) <? 2) else Revert InvalidPath ;;
    let expectedOut := List.last expectedAmounts 0 in
    require negb (expectedOut =? 0) else Revert NoOutput ;;
    floor <- minAmountOut expectedOut maxSlippageBps ;;
    let balanceBefore := sw_balanceBefore ext in
    require sw_increaseAllowance ext else ExternalRevert ;;
    match sw_swap ext amountIn floor path deadline with
    | None => Aborted (Revert SlippageExceeded)
    | Some balanceAfter =>
      amountOut <- checked_sub balanceAfter balanceBefore ;;
      require negb (amountOut <? floor) else Revert SlippageExceeded ;;
      lost <- checked_sub expectedOut amountOut ;;
      scaled <- checked_mul lost 10000 ;;
      actualSlippageBps <- checked_div scaled expectedOut ;;
      require sw_approve ext else ExternalRevert ;;
      Ok [SwapExecuted tokenIn tokenOut amountIn amountOut actualSlippageBps]
    end
  end.

(** ** The flash-loan callback *)

(** The external calls of the callback, in the order they are made: the
    collateral balance before the liquidation, the allowance given to the
    pool, [POOL.liquidationCall] ([false] when it reverts), the collateral
    balance after it, then those of the swap and of the settlement. *)
Record CallbackCalls := mkCallbackCalls {
  cb_collateralBefore : Z;
  cb_increaseAllowance : bool;
  cb_liquidationCall : bool;
  cb_collateralAfter : Z;
  cb_swap : SwapCalls;
  cb_finalize : FinalizeCalls
}.

Definition _handleLiquidationSuccess (im : Immutables) (st : Storage)
    (tx_origin : address) (block_timestamp : Z) (ext : CallbackCalls)
    (asset : address) (amount premium : Z) (collateralAsset debtAsset : address)
    (collateralBefore maxSlippageBps deadline : Z) (targetUser : address)
    : result (Storage * list Event * bool) :=
  let collateralAfter := cb_collateralAfter ext in
  collateralReceived <- checked_sub collateralAfter collateralBefore ;;
  require negb (collateralReceived =? 0) else Revert FlashLoanFailed ;;
  swapped <-
    (if negb (collateralAsset =? debtAsset) && (collateralReceived >? 0)
     then _executeSwap im block_timestamp (cb_swap ext) collateralAsset debtAsset
            collateralReceived maxSlippageBps deadline
     else Ok []) ;;
  settlement <- _finalizeLiquidation st tx_origin (cb_finalize ext) asset amount
                  premium targetUser ;;
  let '(st', events, success) := settlement in
  Ok (st', swapped ++ events, success).

Definition _processLiquidation (im : Immutables) (st : Storage)
    (tx_origin : address) (block_timestamp : Z) (ext : CallbackCalls)
    (asset : address) (amount premium : Z) (params : Params)
    : result (Storage * list Event * bool) :=
  require negb (block_timestamp >? p_deadline params) else Revert DeadlineExpired ;;
  let collateralBefore := cb_collateralBefore ext in
  require cb_increaseAllowance ext else ExternalRevert ;;
  if cb_liquidationCall ext then
    _handleLiquidationSuccess im st tx_origin block_timestamp ext asset amount premium
      (p_collateralAsset params) (p_debtAsset params) collateralBefore
      (p_maxSlippageBps params) (p_deadline params) (p_targetUser params)
  else Aborted (Revert FlashLoanFailed).

(** [this] is the address of the contract.  The gas bookkeeping of the
    function has no effect and is left out. *)
Definition executeOperation (im : Immutables) (this : address) (st : Storage)
    (msg_sender tx_origin : address) (block_timestamp : Z) (ext : CallbackCalls)
    (asset : address) (amount premium : Z) (initiator : address) (params : Params)
    : result (Storage * list Event * bool) :=
  require negb (entered st) else ReentrantCall ;;
  require (msg_sender =? POOL im) else Revert UnauthorizedCaller ;;
  require (initiator =? this) else Revert InvalidInitiator ;;
  outcome <- _processLiquidation im (withEntered st true) tx_origin block_timestamp
               ext asset amount premium params ;;
  let '(st', events, success) := outcome in
  Ok (withEntered st' false, events, success).

(** ** Owner functions and views *)

(** The reverts of the owner functions that are not among the aborts of
    the liquidation path: [unpause] on a contract that is not paused, and
    the [require] of [setMultipleAllowedReserves]. *)
Inductive OwnerAbort :=
| OwnerNotOwner
| OwnerEnforcedPause
| OwnerExpectedPause
| ArraysLengthMismatch.

Definition withPaused (st : Storage) (b : bool) : Storage :=
  mkStorage (totalProfitGenerated st) (totalLiquidationsExecuted st)
    (lastExecutor st) b (owner st) (entered st).

(** [pause() external onlyOwner { _pause(); }] *)
Definition pause (st : Storage) (msg_sender : address) : OwnerAbort + Storage :=
  if negb (msg_sender =? owner st) then inl OwnerNotOwner
  else if paused st then inl OwnerEnforcedPause
  else inr (withPaused st true).

(** [unpause() external onlyOwner { _unpause(); }] *)
Definition unpause (st : Storage) (msg_sender : address) : OwnerAbort + Storage :=
  if negb (msg_sender =? owner st) then inl OwnerNotOwner
  else if negb (paused st) then inl OwnerExpectedPause
  else inr (withPaused st false).

(** The mapping [allowedReserves]; an address without an entry reads
    [false]. *)
Definition isTokenAllowed (allowedReserves : gmap Z bool) (token : address) : bool :=
  default false (allowedReserves !! token).

Definition setAllowedReserve (st : Storage) (msg_sender : address)
    (allowedReserves : gmap Z bool) (token : address) (allowed : bool)
    : OwnerAbort + gmap Z bool :=
  if negb (msg_sender =? owner st) then inl OwnerNotOwner
  else inr (<[token := allowed]> allowedReserves).

(** The loop [allowedReserves[tokens[i]] = allowed[i]] over arrays of the
    same length. *)
Fixpoint setEach (tokens : list address) (allowed : list bool)
    (allowedReserves : gmap Z bool) : gmap Z bool :=
  match tokens, allowed with
  | token :: tokens', flag :: allowed' =>
    setEach tokens' allowed' (<[token := flag]> allowedReserves)
  | _, _ => allowedReserves
  end.

Definition setMultipleAllowedReserves (st : Storage) (msg_sender : address)
    (allowedReserves : gmap Z bool) (tokens : list address) (allowed : list bool)
    : OwnerAbort + gmap Z bool :=
  if negb (msg_sender =? owner st) then inl OwnerNotOwner
  else if negb (length tokens =? length allowed)%nat then inl ArraysLengthMismatch
  else inr (setEach tokens allowed allowedReserves).

(** [getStats] and [estimateFlashLoanCost]. *)
Definition getStats (st : Storage) : Z * Z * bool :=
  (totalProfitGenerated st, totalLiquidationsExecuted st, paused st).

Definition estimateFlashLoanCost (amount : Z) : result Z :=
  scaled <- checked_mul amount FLASH_LOAN_PREMIUM_BPS ;;
  checked_div scaled 10000.

End SimpleLiquidator.

(* ===================================================================== *)
(** * JavaScript numbers *)
(* ===================================================================== *)

(** The TypeScript services compute with IEEE doubles.  A number is either
    [NaN] or a finite value, taken here as an exact rational: rounding is
    not represented, and neither are the infinities.  The quotient by zero
    (an infinity or NaN in JavaScript) is [NaN]; every division of the
    embedded functions is guarded by a [> 0] test or divides by a power of
    ten.  Comparisons with [NaN] are false, as in JavaScript. *)

Module JsNumber.

Local Open Scope Q_scope.

Inductive num :=
| Fin (q : Q)
| NaN.

Definition lift2 (f : Q -> Q -> Q) (a b : num) : num :=
  match a, b with
  | Fin x, Fin y => Fin (f x y)
  | _, _ => NaN
  end.

Definition add : num -> num -> num := lift2 Qplus.
Definition sub : num -> num -> num := lift2 Qminus.
Definition mul : num -> num -> num := lift2 Qmult.

Definition div (a b : num) : num :=
  match a, b with
  | Fin x, Fin y => if Qeq_bool y 0 then NaN else Fin (x / y)
  | _, _ => NaN
  end.

Definition Qltb (x y : Q) : bool :=
  match x ?= y with Lt => true | _ => false end.

(** [a < b], [a > b], [a <= b], [a >= b], [a === b]. *)
Definition lt (a b : num) : bool :=
  match a, b with Fin x, Fin y => Qltb x y | _, _ => false end.
Definition gt (a b : num) : bool := lt b a.
Definition le (a b : num) : bool :=
  match a, b with Fin x, Fin y => Qle_bool x y | _, _ => false end.
Definition ge (a b : num) : bool := le b a.
Definition eq (a b : num) : bool :=
  match a, b with Fin x, Fin y => Qeq_bool x y | _, _ => false end.

(** [Math.max] and [Math.min]: [NaN] when an argument is. *)
Definition max (a b : num) : num :=
  match a, b with
  | Fin x, Fin y => if Qle_bool x y then Fin y else Fin x
  | _, _ => NaN
  end.
Definition min (a b : num) : num :=
  match a, b with
  | Fin x, Fin y => if Qle_bool x y then Fin x else Fin y
  | _, _ => NaN
  end.

(** [parseInt] of a numeric string: the integer part, towards zero.  The
    string is represented by the number [parseFloat] reads from it. *)
Definition parseInt (a : num) : num :=
  match a with
  | Fin x => Fin (inject_Z (Z.quot (Qnum x) (Zpos (Qden x))))
  | NaN => NaN
  end.

(** [Math.pow(b, e)] for a positive base and an integral exponent. *)
Definition pow (b : Q) (e : num) : num :=
  match e with
  | Fin x => Fin (Qpower b (Z.quot (Qnum x) (Zpos (Qden x))))
  | NaN => NaN
  end.

Definition of_Z (z : Z) : num := Fin (inject_Z z).

(** The order and the equality of finite values, as propositions; nothing
    is related to [NaN]. *)
Definition leq (a b : num) : Prop :=
  match a, b with Fin x, Fin y => x <= y | _, _ => False end.
Definition ltq (a b : num) : Prop :=
  match a, b with Fin x, Fin y => x < y | _, _ => False end.
Definition equiv (a b : num) : Prop :=
  match a, b with Fin x, Fin y => x == y | _, _ => False end.


End JsNumber.

(* ===================================================================== *)
(** * Health factors and the opportunity scan (server/aave-service.ts) *)
(* ===================================================================== *)

Module AaveService.

Import JsNumber.

(** ** Data

    A user reserve as the subgraph returns it, with [reserve.reserve] and
    [reserve.reserve.price] flattened.  A numeric string field is the number
    [parseFloat] reads from it: [NaN] when the field is absent or does not
    parse. *)
Record AaveUserReserve := mkReserve {
  symbol : string;
  decimals : num;
  liquidationThreshold : num;            (* basis points *)
  priceInEth : num;
  currentATokenBalance : num;
  currentVariableDebt : num;
  currentStableDebt : num;
  usageAsCollateralEnabledOnUser : bool
}.

Record AaveUser := mkUser {
  id : string;
  reserves : list AaveUserReserve
}.

Record HealthFactorData := mkHealth {
  userAddress : string;
  healthFactor : num;
  totalCollateralETH : num;
  totalDebtETH : num;
  availableBorrowsETH : num;
  currentLiquidationThreshold : num;
  ltv : num;
  hf_reserves : list AaveUserReserve
}.

(** ** calculateHealthFactor *)

(** The three running sums of the loop over [user.reserves]. *)
Record Totals := mkTotals {
  sumCollateralETH : num;
  sumDebtETH : num;
  sumCollateralWithThreshold : num
}.

Definition zero : num := Fin 0%Q.

(** [reserve.usageAsCollateralEnabledOnUser && parseFloat(balance) > 0] *)
Definition countsAsCollateral (r : AaveUserReserve) : bool :=
  usageAsCollateralEnabledOnUser r && gt (currentATokenBalance r) zero.

(** [parseFloat(variableDebt) + parseFloat(stableDebt) > 0] *)
Definition reserveDebt (r : AaveUserReserve) : num :=
  add (currentVariableDebt r) (currentStableDebt r).
Definition hasDebt (r : AaveUserReserve) : bool := gt (reserveDebt r) zero.

Definition thresholdFraction (r : AaveUserReserve) : num :=
  div (parseInt (liquidationThreshold r)) (of_Z 10000).

Definition collateralValueETH (r : AaveUserReserve) : num :=
  let collateralAmount :=
    div (currentATokenBalance r) (pow 10%Q (parseInt (decimals r))) in
  mul collateralAmount (priceInEth r).

Definition debtValueETH (r : AaveUserReserve) : num :=
  let debtAmount := div (reserveDebt r) (pow 10%Q (parseInt (decimals r))) in
  mul debtAmount (priceInEth r).

(** One iteration of the loop body. *)
Definition accumulate (t : Totals) (r : AaveUserReserve) : Totals :=
  let t1 :=
    if countsAsCollateral r then
      mkTotals (add (sumCollateralETH t) (collateralValueETH r))
               (sumDebtETH t)
               (add (sumCollateralWithThreshold t)
                    (mul (collateralValueETH r) (thresholdFraction r)))
    else t in
  if hasDebt r then
    mkTotals (sumCollateralETH t1)
             (add (sumDebtETH t1) (debtValueETH r))
             (sumCollateralWithThreshold t1)
  else t1.

Definition aggregate (rs : list AaveUserReserve) : Totals :=
  fold_left accumulate rs (mkTotals zero zero zero).

(** The sentinel returned for a position without debt. *)
Definition HEALTH_FACTOR_SENTINEL : num := Fin 999%Q.

Definition calculateHealthFactor (user : AaveUser) : HealthFactorData :=
  let t := aggregate (reserves user) in
  let currentLiquidationThreshold :=
    if gt (sumCollateralETH t) zero
    then div (sumCollateralWithThreshold t) (sumCollateralETH t)
    else zero in
  let healthFactor :=
    if gt (sumDebtETH t) zero
    then div (sumCollateralWithThreshold t) (sumDebtETH t)
    else HEALTH_FACTOR_SENTINEL in
  mkHealth (id user) healthFactor (sumCollateralETH t) (sumDebtETH t)
    (max zero (sub (sumCollateralWithThreshold t) (sumDebtETH t)))
    currentLiquidationThreshold
    (if gt (sumCollateralETH t) zero
     then div (sumDebtETH t) (sumCollateralETH t) else zero)
    (reserves user).

(** ** convertToLiquidationPosition *)

Inductive Status := monitoring | in_range | executed.

(** [firstSeen] and [lastUpdated] (the clock at construction) are left out;
    the two amounts are kept as numbers, before [toFixed(6)] prints them. *)
Record LiquidationPosition := mkPosition {
  pos_id : string;
  pos_userAddress : string;
  pos_healthFactor : num;
  pos_collateralAsset : string;
  pos_collateralAmount : num;
  pos_debtAsset : string;
  pos_debtAmount : num;
  pos_estimatedProfit : num;
  pos_status : Status
}.

Record Largest := mkLargest {
  lg_symbol : string;
  lg_amount : num;
  lg_valueETH : num
}.

Definition largestStep (acc : Largest * Largest) (r : AaveUserReserve)
    : Largest * Largest :=
  let '(largestCollateral, largestDebt) := acc in
  let scale := pow 10%Q (parseInt (decimals r)) in
  let largestCollateral' :=
    if countsAsCollateral r then
      let collateralAmount := div (currentATokenBalance r) scale in
      let valueETH := mul collateralAmount (priceInEth r) in
      if gt valueETH (lg_valueETH largestCollateral)
      then mkLargest (symbol r) collateralAmount valueETH
      else largestCollateral
    else largestCollateral in
  let largestDebt' :=
    if hasDebt r then
      let debtAmount := div (reserveDebt r) scale in
      let valueETH := mul debtAmount (priceInEth r) in
      if gt valueETH (lg_valueETH largestDebt)
      then mkLargest (symbol r) debtAmount valueETH
      else largestDebt
    else largestDebt in
  (largestCollateral', largestDebt').

(** The execution-range test that sets [status]. *)
Definition statusOf (healthFactor executionMin executionMax : num) : Status :=
  if ge healthFactor executionMin && le healthFactor executionMax
  then in_range else monitoring.

Definition convertToLiquidationPosition (ethPrice : num)
    (healthData : HealthFactorData) (executionMin executionMax : num)
    : option LiquidationPosition :=
  let none := mkLargest EmptyString zero zero in
  let '(largestCollateral, largestDebt) :=
    fold_left largestStep (hf_reserves healthData) (none, none) in
  if eq (lg_valueETH largestCollateral) zero || eq (lg_valueETH largestDebt) zero
  then None
  else
    let liquidationBonus := Fin (5 # 100) in
    let estimatedProfitETH :=
      mul (min (mul (lg_valueETH largestDebt) (Fin (1 # 2)))
               (lg_valueETH largestCollateral))
          liquidationBonus in
    let estimatedProfitUSD := mul estimatedProfitETH ethPrice in
    Some (mkPosition EmptyString (userAddress healthData)
            (healthFactor healthData)
            (lg_symbol largestCollateral) (lg_amount largestCollateral)
            (lg_symbol largestDebt) (lg_amount largestDebt)
            estimatedProfitUSD
            (statusOf (healthFactor healthData) executionMin executionMax)).

(** ** Classification of a health factor

    The scan keeps a user only when the health factor passes the
    monitoring-range test, and [convertToLiquidationPosition] then tags the
    position.  [classify] names the three outcomes: not reported, reported
    as ['monitoring'], reported as ['in_range']. *)

Definition inMonitoringRange (healthFactor monitoringMin monitoringMax : num) : bool :=
  ge healthFactor monitoringMin && le healthFactor monitoringMax.



(** ** getLiquidationOpportunities *)

(** The two subgraph queries, by [first] and [skip]; [None] when the
    request is rejected. *)
Record Subgraph := mkSubgraph {
  usersWithDebt : nat -> nat -> option (list AaveUser);
  usersWithStableDebt : nat -> nat -> option (list AaveUser)
}.

(** [userMap.set(user.id, user)] on a [Map], which iterates in the order
    the keys were first inserted. *)
Fixpoint mapSet (k : string) (v : AaveUser) (m : list (string * AaveUser))
    : list (string * AaveUser) :=
  match m with
  | [] => [(k, v)]
  | (k', v') :: m' =>
    if String.eqb k' k then (k', v) :: m' else (k', v') :: mapSet k v m'
  end.

Definition deduplicate (users : list AaveUser) : list AaveUser :=
  map snd (fold_left (fun m u => mapSet (id u) u m) users []).

Definition batchSize : nat := 50.

(** The inner [for] loop over the users of one batch. *)
Fixpoint processUsers (ethPrice monitoringMin monitoringMax executionMin executionMax : num)
    (maxUsers : nat) (users : list AaveUser) (processedUsers : nat)
    (liquidationPositions : list LiquidationPosition)
    : nat * list LiquidationPosition :=
  match users with
  | [] => (processedUsers, liquidationPositions)
  | user :: rest =>
    if (maxUsers <=? processedUsers)%nat then (processedUsers, liquidationPositions)
    else
      let healthData := calculateHealthFactor user in
      let liquidationPositions' :=
        if inMonitoringRange (healthFactor healthData) monitoringMin monitoringMax then
          match convertToLiquidationPosition ethPrice healthData executionMin executionMax with
          | Some position => liquidationPositions ++ [position]
          | None => liquidationPositions
          end
        else liquidationPositions in
      processUsers ethPrice monitoringMin monitoringMax executionMin executionMax
        maxUsers rest (S processedUsers) liquidationPositions'
  end.

Inductive ScanOutcome :=
| Completed (positions : list LiquidationPosition)
| Threw.

(** The [while] loop; [None] when the fuel runs out. *)
Fixpoint scanLoop (fuel : nat) (sg : Subgraph)
    (ethPrice monitoringMin monitoringMax executionMin executionMax : num)
    (maxUsers processedUsers skip : nat)
    (liquidationPositions : list LiquidationPosition) : option ScanOutcome :=
  match fuel with
  | O => None
  | S fuel' =>
    if (processedUsers <? maxUsers)%nat then
      let first := Nat.min batchSize (maxUsers - processedUsers) in
      match usersWithDebt sg first skip with
      | None => Some Threw
      | Some variableDebtUsers =>
        match usersWithStableDebt sg first skip with
        | None => Some Threw
        | Some stableDebtUsers =>
          match deduplicate (variableDebtUsers ++ stableDebtUsers) with
          | [] => Some (Completed liquidationPositions)
          | allUsers =>
            let '(processedUsers', liquidationPositions') :=
              processUsers ethPrice monitoringMin monitoringMax executionMin executionMax
                maxUsers allUsers processedUsers liquidationPositions in
            scanLoop fuel' sg ethPrice monitoringMin monitoringMax executionMin executionMax
              maxUsers processedUsers' (skip + batchSize)%nat liquidationPositions'
          end
        end
      end
    else Some (Completed liquidationPositions)
  end.

(** [positions.sort((a, b) => a.healthFactor - b.healthFactor)].  The sort
    of an array is stable, and for a consistent comparator every stable
    sort returns the same array: insertion from the left stands for it. *)
Definition compareFn (a b : LiquidationPosition) : num :=
  sub (pos_healthFactor a) (pos_healthFactor b).

Fixpoint insertSorted (x : LiquidationPosition) (l : list LiquidationPosition)
    : list LiquidationPosition :=
  match l with
  | [] => [x]
  | y :: l' => if gt (compareFn y x) zero then x :: l else y :: insertSorted x l'
  end.

Definition sortPositions (l : list LiquidationPosition) : list LiquidationPosition :=
  fold_left (fun sorted x => insertSorted x sorted) l [].

Definition ERROR_FETCHING : string := "Error fetching liquidation opportunities:".

(** The result and what was written to the console.  Every pass of the
    [while] loop that does not leave it processes at least one user, so
    [maxUsers + 1] passes are enough. *)
Definition getLiquidationOpportunities (sg : Subgraph)
    (ethPrice monitoringMin monitoringMax executionMin executionMax : num)
    (maxUsers : nat) : option (list LiquidationPosition * list string) :=
  match scanLoop (S maxUsers) sg ethPrice monitoringMin monitoringMax
          executionMin executionMax maxUsers 0 0 [] with
  | None => None
  | Some (Completed positions) => Some (sortPositions positions, [])
  | Some Threw => Some ([], [ERROR_FETCHING])
  end.

(** The default ranges of the parameters. *)
Definition DEFAULT_MONITORING_MIN : num := Fin (75 # 100).
Definition DEFAULT_MONITORING_MAX : num := Fin (105 # 100).
Definition DEFAULT_EXECUTION_MIN : num := Fin (85 # 100).
Definition DEFAULT_EXECUTION_MAX : num := Fin (87 # 100).

End AaveService.

(* ===================================================================== *)
(** * The position store (database layer) *)
(* ===================================================================== *)

Module DatabaseService.

(** The conflict target of the upsert:
    [(chain_id, user_address, collateral_asset, debt_asset)]. *)
Definition Key : Type := Z * string * string * string.

(** The argument of [upsertLiquidationPosition]: a position without [id],
    [created_at] and [last_updated].  The two amounts (decimal strings,
    [DECIMAL(78,18)] columns) are integers in units of [10^-18]; the three
    ratios are kept as rationals. *)
Record PositionInput := mkInput {
  chain_id : Z;
  user_address : string;
  collateral_asset : string;
  debt_asset : string;
  collateral_amount : Z;
  debt_amount : Z;
  health_factor : Q;
  liquidation_threshold : Q;
  liquidation_bonus : Q;
  is_liquidatable : bool
}.

Record LiquidationPosition := mkRow {
  row_id : Z;
  row_position : PositionInput;
  last_updated : Z;
  created_at : Z
}.

Definition keyOf (p : PositionInput) : Key :=
  (chain_id p, user_address p, collateral_asset p, debt_asset p).

(** ** The table (schema.sql)

    The columns of [liquidation_positions]. *)
Inductive Column :=
| col_id | col_chain_id | col_user_address | col_collateral_asset | col_debt_asset
| col_collateral_amount | col_debt_amount | col_health_factor
| col_liquidation_threshold | col_liquidation_bonus | col_is_liquidatable
| col_last_updated | col_created_at.

#[global] Instance Column_eq_dec : EqDecision Column.
Proof. solve_decision. Defined.

(** What a schema declares unique on the table besides the primary key
    [id] (whose values [uuid_generate_v4()] makes): the column lists of its
    UNIQUE constraints and unique indexes.  schema.sql declares none: the
    two indexes it creates on the table, on [(chain_id, health_factor)] and
    on [(is_liquidatable, chain_id)], are plain ones. *)
Record Schema := mkSchema {
  uniqueConstraints : list (list Column)
}.

Definition schema_sql : Schema := mkSchema [].

(** [ON CONFLICT (chain_id, user_address, collateral_asset, debt_asset)] *)
Definition conflictTarget : list Column :=
  [col_chain_id; col_user_address; col_collateral_asset; col_debt_asset].

(** The statement is planned only if a unique constraint covers exactly
    the columns of the conflict target, in any order. *)
Definition sameColumns (a b : list Column) : bool :=
  forallb (fun c => bool_decide (c ∈ b)) a && forallb (fun c => bool_decide (c ∈ a)) b.

Definition hasArbiter (schema : Schema) : bool :=
  existsb (sameColumns conflictTarget) (uniqueConstraints schema).

(** The errors of the statement: [42P10] (there is no unique or exclusion
    constraint matching the ON CONFLICT specification), raised when the
    statement is planned, before any value is looked at; and a value that
    a column does not take ([22003], numeric value out of range, or
    [22001], string too long), whichever the server meets first. *)
Inductive DbError :=
| InvalidColumnReference
| DataException.

(** ** The values the columns take *)

(** [VARCHAR(42)]: a longer string is an error unless the excess is
    spaces, which are cut off. *)
Definition varchar_42 (s : string) : option string :=
  if (String.length s <=? 42)%nat then Some s
  else if forallb (Ascii.eqb (Ascii.ascii_of_nat 32))
            (list_ascii_of_string (String.substring 42 (String.length s - 42) s))
       then Some (String.substring 0 42 s)
       else None.

(** [DECIMAL(10,4)]: the value is rounded to four decimals, ties away from
    zero, and has to leave at most six digits before the point. *)
Definition round_half_away (q : Q) : Z :=
  if Qle_bool 0 q then Qfloor (q + (1 # 2)) else Qceiling (q - (1 # 2)).

Definition decimal_4 (q : Q) : option Q :=
  let n := round_half_away (q * 10000) in
  if Z.abs n <? 10 ^ 10 then Some (n # 10000) else None.

(** [DECIMAL(78,18)], in units of [10^-18]. *)
Definition decimal_78_18 (n : Z) : option Z :=
  if Z.abs n <? 10 ^ 78 then Some n else None.

(** [INTEGER] *)
Definition integer (n : Z) : option Z :=
  if (- 2 ^ 31 <=? n) && (n <? 2 ^ 31) then Some n else None.

(** The values of a row as the columns hold them, [None] when one of them
    is refused. *)
Definition stored (p : PositionInput) : option PositionInput :=
  chain ← integer (chain_id p);
  user ← varchar_42 (user_address p);
  collateral ← varchar_42 (collateral_asset p);
  debt ← varchar_42 (debt_asset p);
  collateralAmount ← decimal_78_18 (collateral_amount p);
  debtAmount ← decimal_78_18 (debt_amount p);
  healthFactor ← decimal_4 (health_factor p);
  threshold ← decimal_4 (liquidation_threshold p);
  bonus ← decimal_4 (liquidation_bonus p);
  Some (mkInput chain user collateral debt collateralAmount debtAmount
          healthFactor threshold bonus (is_liquidatable p)).

(** The rows of [liquidation_positions] by the columns of the conflict
    target.  The upsert is the only statement that writes to the table, and
    it writes only under a unique constraint on these columns, so there is
    at most one row per key. *)
Definition emptyTable : gmap Key LiquidationPosition := ∅.

(** [INSERT ... ON CONFLICT (chain_id, user_address, collateral_asset,
    debt_asset) DO UPDATE SET ..., last_updated = NOW() RETURNING *].
    [now] is the database clock and [uuid] the identifier generated for a
    new row.  [pool.query] rejects with the error of the statement, and the
    table is then as it was.  The [SET] list assigns every column of the
    argument that is not part of the key, so the row holds the values of
    the argument as the columns take them. *)
Definition upsertLiquidationPosition (schema : Schema) (now uuid : Z)
    (position : PositionInput) (table : gmap Key LiquidationPosition)
    : DbError + gmap Key LiquidationPosition * LiquidationPosition :=
  if negb (hasArbiter schema) then inl InvalidColumnReference
  else
    match stored position with
    | None => inl DataException
    | Some values =>
      let row :=
        match table !! keyOf values with
        | None => mkRow uuid values now now
        | Some existing => mkRow (row_id existing) values now (created_at existing)
        end in
      inr (<[keyOf values := row]> table, row)
    end.

(** A call together with the clock and the generated identifier. *)
Record Call := mkCall {
  call_now : Z;
  call_uuid : Z;
  call_position : PositionInput
}.

(** A sequence of calls against a database set up with [schema]; a call
    that is rejected leaves the table as it is (its caller logs the error
    and goes on). *)
Definition upsertAllIn (schema : Schema) (calls : list Call)
    (table : gmap Key LiquidationPosition) : gmap Key LiquidationPosition :=
  fold_left (fun t c =>
    match upsertLiquidationPosition schema (call_now c) (call_uuid c)
            (call_position c) t with
    | inr (t', _) => t'
    | inl _ => t
    end)
    calls table.

(** The calls against the database as [initializeDatabase] sets it up,
    from schema.sql. *)
Definition upsertAll (calls : list Call) (table : gmap Key LiquidationPosition)
    : gmap Key LiquidationPosition :=
  upsertAllIn schema_sql calls table.

(** ** getLiquidatablePositions *)

(** [WHERE chain_id = $1 AND is_liquidatable = true
     AND health_factor BETWEEN $2 AND $3] *)
Definition selected (chainId : Z) (minHealthFactor maxHealthFactor : Q)
    (row : LiquidationPosition) : bool :=
  (chain_id (row_position row) =? chainId)%Z
  && is_liquidatable (row_position row)
  && Qle_bool minHealthFactor (health_factor (row_position row))
  && Qle_bool (health_factor (row_position row)) maxHealthFactor.

(** [ORDER BY health_factor ASC]; rows with equal health factors come in
    an order the database chooses, here the one of the insertion. *)
Fixpoint insertRow (row : LiquidationPosition) (sorted : list LiquidationPosition)
    : list LiquidationPosition :=
  match sorted with
  | [] => [row]
  | r :: sorted' =>
    if Qle_bool (health_factor (row_position row)) (health_factor (row_position r))
    then row :: sorted
    else r :: insertRow row sorted'
  end.

Definition orderByHealthFactor (rows : list LiquidationPosition)
    : list LiquidationPosition :=
  fold_right insertRow [] rows.

Definition getLiquidatablePositions (chainId : Z) (minHealthFactor maxHealthFactor : Q)
    (table : gmap Key LiquidationPosition) : list LiquidationPosition :=
  orderByHealthFactor
    (List.filter (selected chainId minHealthFactor maxHealthFactor)
       (map snd (map_to_list table))).

End DatabaseService.

(* ===================================================================== *)
(** * The orchestrator's amounts (liquidation/health-factor-calculator) *)
(* ===================================================================== *)

Module HealthFactorCalculator.

Import JsNumber.

(** [const isLiquidatable = healthFactorNum < 1.0] *)
Definition isLiquidatable (healthFactorNum : num) : bool :=
  lt healthFactorNum (Fin 1%Q).

(** [BigNumber] values are integers; [div] truncates towards zero.
    [parseUnits(s, 18)] of a decimal string is the integer [s * 10^18]. *)
Definition parseUnits_1 : Z := 10 ^ 18.          (* parseUnits('1', 18) *)
Definition parseUnits_0_5 : Z := 5 * 10 ^ 17.    (* parseUnits('0.5', 18) *)

Definition maxLiquidationDebt (debtAmount : Z) : Z := debtAmount ÷ 2.

Definition maxLiquidationCollateral (collateralAmount : Z) : Z :=
  (collateralAmount * parseUnits_0_5) ÷ parseUnits_1.

Definition maxLiquidationAmount (debtAmount collateralAmount : Z) : Z :=
  if maxLiquidationDebt debtAmount <? maxLiquidationCollateral collateralAmount
  then maxLiquidationDebt debtAmount
  else maxLiquidationCollateral collateralAmount.

Record LiquidationOpportunity := mkOpportunity {
  opp_user : string;
  opp_collateralAsset : string;
  opp_debtAsset : string;
  opp_collateralAmount : Z;
  opp_debtAmount : Z;
  opp_healthFactor : Q;
  opp_liquidationThreshold : Q;
  opp_liquidationBonus : Q;
  opp_maxLiquidationAmount : Z;
  opp_potentialProfit : Z;
  opp_gasEstimate : Z
}.

Definition DEFAULT_GAS_ESTIMATE : Z := 500000.

(** [estimateGas] is the answer of the node to the gas estimation ([None]
    when it fails); [liquidationBonus] is
    [parseUnits(position.liquidation_bonus.toString(), 18)]. *)
Definition analyzeLiquidationOpportunity (estimateGas : Z -> option Z)
    (liquidationBonus : Z) (position : DatabaseService.PositionInput)
    : LiquidationOpportunity :=
  let debtAmount := DatabaseService.debt_amount position in
  let collateralAmount := DatabaseService.collateral_amount position in
  let amount := maxLiquidationAmount debtAmount collateralAmount in
  let profitAmount := (amount * liquidationBonus) ÷ parseUnits_1 in
  let gasEstimate :=
    match estimateGas amount with
    | Some g => g
    | None => DEFAULT_GAS_ESTIMATE
    end in
  mkOpportunity (DatabaseService.user_address position)
    (DatabaseService.collateral_asset position)
    (DatabaseService.debt_asset position)
    collateralAmount debtAmount
    (DatabaseService.health_factor position)
    (DatabaseService.liquidation_threshold position)
    (DatabaseService.liquidation_bonus position)
    amount profitAmount gasEstimate.

(** ** getChainHealthSummary

    The two counts of the summary.  [table] is [None] when the query
    fails.  The average and the two totals, computed from columns the
    driver hands over as text, are left out. *)
Record ChainHealthSummary := mkSummary {
  totalPositions : nat;
  liquidatablePositions : nat
}.

Definition getChainHealthSummary
    (table : option (gmap DatabaseService.Key DatabaseService.LiquidationPosition))
    (chainId : Z) : ChainHealthSummary :=
  match table with
  | None => mkSummary 0 0
  | Some t =>
    let positions := DatabaseService.getLiquidatablePositions chainId 0 2 t in
    mkSummary (length positions)
      (length (List.filter
                 (fun p => DatabaseService.is_liquidatable (DatabaseService.row_position p))
                 positions))
  end.

End HealthFactorCalculator.

(* ===================================================================== *)
(** * Reconnection (server/websocket/websocket-manager.ts) *)
(* ===================================================================== *)

Module WebSocketManager.

Record WebSocketConnection := mkConnection {
  chainId : Z;
  chainName : string;
  ws : option Z;                 (* the socket, [None] for [null] *)
  isConnected : bool;
  reconnectAttempts : nat;
  lastPing : Z;
  subscriptions : list string
}.

(** [setTimeout(() => this.connect(chainId), delay)] *)
Record Timeout := mkTimeout {
  timeout_chain : Z;
  timeout_delay : Z
}.

Record Manager := mkManager {
  connections : gmap Z WebSocketConnection;
  reconnectIntervals : gmap Z Timeout
}.

Definition maxReconnectAttempts : nat := 5.
Definition reconnectDelay : Z := 5000.

Inductive Activity :=
| MaxReconnectionAttemptsReached (chain : Z) (attempts : nat)
| ReconnectionScheduled (chain : Z) (delay : Z) (attempt : nat).

Definition withAttempts (c : WebSocketConnection) (n : nat) : WebSocketConnection :=
  mkConnection (chainId c) (chainName c) (ws c) (isConnected c) n
    (lastPing c) (subscriptions c).

(** The delay of the attempt numbered [attempts] (counted from 1). *)
Definition backoff (attempts : nat) : Z :=
  reconnectDelay * 2 ^ (Z.of_nat attempts - 1).

(** The manager after the call, the timer armed by it (if any) and what
    was logged. *)
Definition scheduleReconnect (m : Manager) (chain : Z)
    : Manager * option Timeout * list Activity :=
  match connections m !! chain with
  | None => (m, None, [])
  | Some connection =>
    if (maxReconnectAttempts <=? reconnectAttempts connection)%nat then
      (m, None, [MaxReconnectionAttemptsReached chain (reconnectAttempts connection)])
    else
      let attempts := S (reconnectAttempts connection) in
      let delay := backoff attempts in
      let timeout := mkTimeout chain delay in
      (mkManager (<[chain := withAttempts connection attempts]> (connections m))
                 (<[chain := timeout]> (reconnectIntervals m)),
       Some timeout,
       [ReconnectionScheduled chain delay attempts])
  end.

(** The ['open'] handler of [connect]: the attempt counter starts over. *)
Definition onOpen (m : Manager) (chain : Z) (now : Z) : Manager :=
  match connections m !! chain with
  | None => m
  | Some c =>
    mkManager
      (<[chain := mkConnection (chainId c) (chainName c) (ws c) true 0%nat now
                    (subscriptions c)]> (connections m))
      (reconnectIntervals m)
  end.

(** [k] failures in a row: the timers armed, in order. *)
Fixpoint failures (k : nat) (m : Manager) (chain : Z) : Manager * list (option Timeout) :=
  match k with
  | O => (m, [])
  | S k' =>
    let '(m', t, _) := scheduleReconnect m chain in
    let '(m'', ts) := failures k' m' chain in
    (m'', t :: ts)
  end.

(** ** connect, disconnect, cleanup and the handlers of a socket *)

Definition setConnection (m : Manager) (chain : Z) (c : WebSocketConnection) : Manager :=
  mkManager (<[chain := c]> (connections m)) (reconnectIntervals m).

(** [connect]: [socket] is what [new WebSocket(wsUrl)] returns, [None]
    when [getWebSocketUrl] or the constructor throws.  The result is the
    manager, the value returned, and the timer armed. *)
Definition connect (m : Manager) (chain : Z) (socket : option Z)
    : Manager * bool * option Timeout :=
  match connections m !! chain with
  | None => (m, false, None)
  | Some connection =>
    if isConnected connection then (m, true, None)
    else
      match socket with
      | Some s =>
        (setConnection m chain
           (mkConnection (chainId connection) (chainName connection) (Some s)
              (isConnected connection) (reconnectAttempts connection)
              (lastPing connection) (subscriptions connection)),
         true, None)
      | None =>
        let '(m', timeout, _) := scheduleReconnect m chain in (m', false, timeout)
      end
  end.

(** The ['close'] and ['error'] handlers.  The connection they change is
    the one [connect] held, which is the one the manager holds for the
    chain as long as it holds one. *)
Definition onClose (m : Manager) (chain : Z) : Manager * option Timeout * list Activity :=
  match connections m !! chain with
  | None => (m, None, [])
  | Some c =>
    scheduleReconnect
      (setConnection m chain
         (mkConnection (chainId c) (chainName c) None false (reconnectAttempts c)
            (lastPing c) (subscriptions c)))
      chain
  end.

Definition onError (m : Manager) (chain : Z) : Manager * option Timeout * list Activity :=
  match connections m !! chain with
  | None => (m, None, [])
  | Some c =>
    scheduleReconnect
      (setConnection m chain
         (mkConnection (chainId c) (chainName c) (ws c) false (reconnectAttempts c)
            (lastPing c) (subscriptions c)))
      chain
  end.

(** [pingIntervals] is kept beside the manager, as the set of chains with
    an entry.  [clearIntervals] also gives the reconnection timer it
    cleared. *)
Definition clearIntervals (m : Manager) (pingIntervals : gset Z) (chain : Z)
    : Manager * gset Z * option Timeout :=
  (mkManager (connections m) (delete chain (reconnectIntervals m)),
   pingIntervals ∖ {[ chain ]},
   reconnectIntervals m !! chain).

(** [disconnect]: the manager, the ping intervals, the reconnection timer
    cleared and the socket closed. *)
Definition disconnect (m : Manager) (pingIntervals : gset Z) (chain : Z)
    : Manager * gset Z * option Timeout * option Z :=
  match connections m !! chain with
  | None => (m, pingIntervals, None, None)
  | Some connection =>
    if negb (isConnected connection) then (m, pingIntervals, None, None)
    else
      let '(m', pingIntervals', cleared) := clearIntervals m pingIntervals chain in
      (setConnection m' chain
         (mkConnection (chainId connection) (chainName connection) None false
            (reconnectAttempts connection) (lastPing connection) []),
       pingIntervals', cleared, ws connection)
  end.

(** [cleanup]: the manager, the ping intervals, the reconnection timers
    cleared and the sockets closed. *)
Definition cleanup (m : Manager) (pingIntervals : gset Z)
    : Manager * gset Z * list Timeout * list Z :=
  (mkManager ∅ ∅, ∅,
   map snd (map_to_list (reconnectIntervals m)),
   omap (fun c : WebSocketConnection => if isConnected c then ws c else None)
        (map snd (map_to_list (connections m)))).

(** [subscribeToNewHeads]: [sendOk] tells whether [ws.send] goes through.
    The result is the manager, the value returned, and the socket the
    request was sent on. *)
Definition subscribeToNewHeads (m : Manager) (chain : Z) (sendOk : bool)
    : Manager * bool * option Z :=
  match connections m !! chain with
  | None => (m, false, None)
  | Some connection =>
    match isConnected connection, ws connection with
    | true, Some socket =>
      if sendOk then
        (setConnection m chain
           (mkConnection (chainId connection) (chainName connection) (ws connection)
              (isConnected connection) (reconnectAttempts connection)
              (lastPing connection) (subscriptions connection ++ ["newHeads"%string])),
         true, Some socket)
      else (m, false, None)
    | _, _ => (m, false, None)
    end
  end.

End WebSocketManager.

(* ===================================================================== *)
(** * The in-memory storage of the server (storage) *)
(* ===================================================================== *)

Module MemStorage.

Import AaveService.

(** [{ ...position, id, firstSeen: now, lastUpdated: now }]; the two
    dates are not part of the record of a position here. *)
Definition withId (position : LiquidationPosition) (id : string) : LiquidationPosition :=
  mkPosition id (pos_userAddress position) (pos_healthFactor position)
    (pos_collateralAsset position) (pos_collateralAmount position)
    (pos_debtAsset position) (pos_debtAmount position)
    (pos_estimatedProfit position) (pos_status position).

(** The [Map] [liquidationPositions], in the order of insertion. *)
Definition Positions : Type := list (string * LiquidationPosition).

Fixpoint set (id : string) (v : LiquidationPosition) (m : Positions) : Positions :=
  match m with
  | [] => [(id, v)]
  | (id', v') :: m' =>
    if String.eqb id' id then (id', v) :: m' else (id', v') :: set id v m'
  end.

Definition getLiquidationPositions (m : Positions) : list LiquidationPosition :=
  map snd m.

(** [uuid] is the value of [randomUUID()]. *)
Definition addLiquidationPosition (uuid : string) (position : LiquidationPosition)
    (m : Positions) : Positions * LiquidationPosition :=
  let liquidationPosition := withId position uuid in
  (set uuid liquidationPosition m, liquidationPosition).

Definition removeLiquidationPosition (id : string) (m : Positions) : Positions :=
  List.filter (fun entry => negb (String.eqb (fst entry) id)) m.

(** ** The activity log *)

Record ActivityLog := mkActivityLog {
  log_id : string;
  log_message : string;
  log_type : string
}.

(** [array.slice(start)]: from the end for a negative [start]. *)
Definition slice {A : Type} (start : Z) (l : list A) : list A :=
  if (start <? 0)%Z
  then skipn (length l - Z.to_nat (- start)) l
  else skipn (Z.to_nat start) l.

Definition addActivityLog (uuid message type : string) (activityLogs : list ActivityLog)
    : list ActivityLog * ActivityLog :=
  let activityLog := mkActivityLog uuid message type in
  let pushed := activityLogs ++ [activityLog] in
  (if (1000 <? length pushed)%nat then slice (-1000) pushed else pushed, activityLog).

(** [this.activityLogs.slice(-limit).reverse()] *)
Definition getActivityLogs (limit : Z) (activityLogs : list ActivityLog)
    : list ActivityLog :=
  rev (slice (- limit) activityLogs).

End MemStorage.

(* ===================================================================== *)
(** * The routes of the connections and the monitoring loop (routes) *)
(* ===================================================================== *)

Module Routes.

Import WebSocketManager.

(** The positions of a scan are added one after the other, the [i]-th
    with the identifier [uuid i]. *)
Fixpoint addAll (uuid : nat -> string) (i : nat)
    (positions : list AaveService.LiquidationPosition) (m : MemStorage.Positions)
    : MemStorage.Positions * list AaveService.LiquidationPosition :=
  match positions with
  | [] => (m, [])
  | position :: rest =>
    let '(m1, stored) := MemStorage.addLiquidationPosition (uuid i) position m in
    let '(m2, others) := addAll uuid (S i) rest m1 in
    (m2, stored :: others)
  end.

Definition removeAll (existing : list AaveService.LiquidationPosition)
    (m : MemStorage.Positions) : MemStorage.Positions :=
  fold_left (fun s pos => MemStorage.removeLiquidationPosition (AaveService.pos_id pos) s)
    existing m.

(** The callback of [startMonitoring]: the positions of the scan replace
    the stored ones.  The result is the storage and the list sent to the
    clients. *)
Definition replacePositions (uuid : nat -> string)
    (positions : list AaveService.LiquidationPosition) (m : MemStorage.Positions)
    : MemStorage.Positions * list AaveService.LiquidationPosition :=
  let existingPositions := MemStorage.getLiquidationPositions m in
  let '(m1, newPositionsWithIds) := addAll uuid 0 positions m in
  (removeAll existingPositions m1, newPositionsWithIds).

(** The initial scan of [startMonitoring]: the stored positions are
    removed first. *)
Definition initialPositions (uuid : nat -> string)
    (positions : list AaveService.LiquidationPosition) (m : MemStorage.Positions)
    : MemStorage.Positions * list AaveService.LiquidationPosition :=
  let existingPositions := MemStorage.getLiquidationPositions m in
  addAll uuid 0 positions (removeAll existingPositions m).

(** [POST /api/websocket/connect/:chainId]: [connect], then
    [subscribeToNewHeads] when it returned [true].  The result is the
    manager, whether the answer is the success message, the socket a
    subscription was sent on, and the timer armed. *)
Definition connectRoute (m : Manager) (chain : Z) (socket : option Z) (sendOk : bool)
    : Manager * bool * option Z * option Timeout :=
  let '(m1, success, timeout) := connect m chain socket in
  if success then
    let '(m2, _, sent) := subscribeToNewHeads m1 chain sendOk in
    (m2, true, sent, timeout)
  else (m1, false, None, timeout).

End Routes.

(* ===================================================================== *)
(** * The fee estimate of the flash-loan service (flash-loan-service) *)
(* ===================================================================== *)

Module FlashLoanService.

(** [parseUnits('0.0009', 18)] and [parseUnits('1', 18)] *)
Definition flashLoanFeeRate : Z := 9 * 10 ^ 14.
Definition parseUnits_1 : Z := 10 ^ 18.

(** [getFlashLoanFees]: [poolContract] tells whether [getPoolContract]
    returns, and [flashLoanAmount] is [parseUnits(amount, 18)], [None]
    when it throws.  The two results, [flashLoanFee] and [totalCost], are
    the integers [formatUnits(_, 18)] prints. *)
Definition getFlashLoanFees (poolContract : bool) (flashLoanAmount : option Z) : Z * Z :=
  if poolContract then
    match flashLoanAmount with
    | Some amount =>
      let flashLoanFee := (amount * flashLoanFeeRate) ÷ parseUnits_1 in
      (flashLoanFee, flashLoanFee)
    | None => (0, 0)
    end
  else (0, 0).

End FlashLoanService.

(* ===================================================================== *)
(** * Predicates of the statements *)
(* ===================================================================== *)

Module Statements.

Import JsNumber AaveService.
Local Open Scope Q_scope.

(** The storage, the event and the result of a settled liquidation. *)
Definition settled (st : SimpleLiquidator.Storage)
    (tx_origin asset targetUser : SimpleLiquidator.address) (profit : Z)
    : SimpleLiquidator.Storage * list SimpleLiquidator.Event * bool :=
  (SimpleLiquidator.mkStorage
     (SimpleLiquidator.totalProfitGenerated st + profit)%Z
     (SimpleLiquidator.totalLiquidationsExecuted st + 1)%Z
     (SimpleLiquidator.lastExecutor st) (SimpleLiquidator.paused st)
     (SimpleLiquidator.owner st) (SimpleLiquidator.entered st),
   [SimpleLiquidator.LiquidationExecuted
      (if negb (SimpleLiquidator.lastExecutor st =? 0)%Z
       then SimpleLiquidator.lastExecutor st else tx_origin)
      targetUser profit asset 0 0],
   true).






(** Positions by health factor, within a band, with a finite health factor. *)
Definition hfLe (a b : LiquidationPosition) : Prop :=
  leq (pos_healthFactor a) (pos_healthFactor b).

Definition inBand (monitoringMin monitoringMax : num) (p : LiquidationPosition) : Prop :=
  leq monitoringMin (pos_healthFactor p) /\ leq (pos_healthFactor p) monitoringMax.

Definition finiteHf (p : LiquidationPosition) : Prop :=
  exists q, pos_healthFactor p = Fin q.

(** The amounts [convertToLiquidationPosition] computes for a reserve. *)
Definition collateralAmountOf (r : AaveUserReserve) : num :=
  div (currentATokenBalance r) (pow 10 (parseInt (decimals r))).

Definition debtAmountOf (r : AaveUserReserve) : num :=
  div (reserveDebt r) (pow 10 (parseInt (decimals r))).

(** The update of one of the two running maxima of
    [convertToLiquidationPosition], and their initial value. *)
Definition pick (counts : AaveUserReserve -> bool)
    (amount value : AaveUserReserve -> num) (l : Largest) (r : AaveUserReserve)
    : Largest :=
  if counts r then
    if gt (value r) (lg_valueETH l)
    then mkLargest (symbol r) (amount r) (value r)
    else l
  else l.

Definition nothing : Largest := mkLargest EmptyString zero zero.

(** [l] is taken from an entry of [seen] that counts and has a positive
    value, or is [nothing]; no entry of [seen] that counts has a greater
    value. *)
Definition largestAmong (counts : AaveUserReserve -> bool)
    (amount value : AaveUserReserve -> num) (seen : list AaveUserReserve)
    (l : Largest) : Prop :=
  (forall r, In r seen -> counts r = true -> gt (value r) (lg_valueETH l) = false) /\
  (l = nothing \/
   exists r, In r seen /\ counts r = true /\ gt (value r) zero = true /\
             l = mkLargest (symbol r) (amount r) (value r)).

(** The positions of a scan with the identifiers the storage gives them,
    from the [i]-th on; a storage whose positions carry their key as
    [id]. *)
Fixpoint stamped (uuid : nat -> string) (i : nat) (positions : list LiquidationPosition)
    : list LiquidationPosition :=
  match positions with
  | [] => []
  | position :: rest => MemStorage.withId position (uuid i) :: stamped uuid (S i) rest
  end.

Definition keyedById (m : MemStorage.Positions) : Prop :=
  Forall (fun entry => pos_id (snd entry) = fst entry) m.


Definition lastWrite (calls : list DatabaseService.Call) (call : DatabaseService.Call)
    : Prop :=
  exists before after,
    calls = before ++ call :: after /\
    Forall (fun c' => DatabaseService.keyOf (DatabaseService.call_position c')
                      <> DatabaseService.keyOf (DatabaseService.call_position call))
           after.

(** schema.sql with the unique constraint that the conflict target of
    the upsert names. *)
Definition keyed : DatabaseService.Schema :=
  DatabaseService.mkSchema
    (DatabaseService.uniqueConstraints DatabaseService.schema_sql
     ++ [DatabaseService.conflictTarget]).

(** The key a call writes under when its values are taken. *)
Definition storedKey (call : DatabaseService.Call) : option DatabaseService.Key :=
  DatabaseService.keyOf <$> DatabaseService.stored (DatabaseService.call_position call).

(** The same position, the three ratios compared as numbers. *)
Definition samePosition (a b : DatabaseService.PositionInput) : Prop :=
  DatabaseService.chain_id a = DatabaseService.chain_id b /\
  DatabaseService.user_address a = DatabaseService.user_address b /\
  DatabaseService.collateral_asset a = DatabaseService.collateral_asset b /\
  DatabaseService.debt_asset a = DatabaseService.debt_asset b /\
  DatabaseService.collateral_amount a = DatabaseService.collateral_amount b /\
  DatabaseService.debt_amount a = DatabaseService.debt_amount b /\
  DatabaseService.health_factor a == DatabaseService.health_factor b /\
  DatabaseService.liquidation_threshold a == DatabaseService.liquidation_threshold b /\
  DatabaseService.liquidation_bonus a == DatabaseService.liquidation_bonus b /\
  DatabaseService.is_liquidatable a = DatabaseService.is_liquidatable b.

(** A position the columns of [liquidation_positions] hold as it is
    given: a 32-bit [chain_id], addresses of at most 42 characters,
    amounts within [DECIMAL(78,18)] and ratios within [DECIMAL(10,4)]. *)
Definition decimal_10_4 (q : Q) : Prop :=
  exists n : Z, q == n # 10000 /\ (Z.abs n < 10 ^ 10)%Z.

Definition storable (p : DatabaseService.PositionInput) : Prop :=
  (- 2 ^ 31 <= DatabaseService.chain_id p < 2 ^ 31)%Z /\
  (String.length (DatabaseService.user_address p) <= 42)%nat /\
  (String.length (DatabaseService.collateral_asset p) <= 42)%nat /\
  (String.length (DatabaseService.debt_asset p) <= 42)%nat /\
  (Z.abs (DatabaseService.collateral_amount p) < 10 ^ 78)%Z /\
  (Z.abs (DatabaseService.debt_amount p) < 10 ^ 78)%Z /\
  decimal_10_4 (DatabaseService.health_factor p) /\
  decimal_10_4 (DatabaseService.liquidation_threshold p) /\
  decimal_10_4 (DatabaseService.liquidation_bonus p).


End Statements.

(* ===================================================================== *)
(** * Sample data *)
(* ===================================================================== *)

Module Samples.

Import JsNumber AaveService Statements.
Local Open Scope Q_scope.

(** A contract owned by address 7, neither paused nor entered. *)
Definition st0 : SimpleLiquidator.Storage :=
  SimpleLiquidator.mkStorage 0%Z 0%Z 7%Z false 7%Z false.

(** A callback for a loan of 1_000_000 with a premium of 500: the pool is
    address 3, the contract address 5, the router quotes 1_100_000 for the
    direct path and the swap delivers it, which leaves 2_100_000 of the
    borrowed asset. *)
Definition im0 : SimpleLiquidator.Immutables := SimpleLiquidator.mkImmutables 3%Z 4%Z 6%Z.
Definition params0 : SimpleLiquidator.Params :=
  SimpleLiquidator.mkParams 2%Z 6%Z 1%Z 150%Z 1000%Z.
Definition calls0 : SimpleLiquidator.CallbackCalls :=
  SimpleLiquidator.mkCallbackCalls 0%Z true true 1100000%Z
    (SimpleLiquidator.mkSwapCalls
       (fun amountIn path => Some [amountIn; 1100000%Z])
       1000000%Z true
       (fun _ _ _ _ => Some 2100000%Z)
       true)
    (SimpleLiquidator.mkFinalizeCalls 2100000%Z true true).

(** Two reserves of one user: 10 units of collateral at price 2 with a
    threshold of 8000 bps, and a debt of 16 units at price 1. *)
Definition collateralReserve : AaveUserReserve :=
  mkReserve "WETH" (Fin 0) (Fin 8000) (Fin 2) (Fin 10) (Fin 0) (Fin 0) true.
Definition debtReserve : AaveUserReserve :=
  mkReserve "DAI" (Fin 0) (Fin 7500) (Fin 1) (Fin 0) (Fin 16) (Fin 0) false.
Definition borrower : AaveUser := mkUser "0xb0" [collateralReserve; debtReserve].
Definition saver : AaveUser := mkUser "0x5a" [collateralReserve].



(** Three users for a scan; the second has no debt. *)
Definition riskier : AaveUser :=
  mkUser "0xa1"
    [mkReserve "WETH" (Fin 0) (Fin 8000) (Fin 2) (Fin 10) (Fin 0) (Fin 0) true;
     mkReserve "DAI" (Fin 0) (Fin 7500) (Fin 1) (Fin 0) (Fin 20) (Fin 0) false].
Definition idle : AaveUser :=
  mkUser "0xa2"
    [mkReserve "WETH" (Fin 0) (Fin 8000) (Fin 2) (Fin 10) (Fin 0) (Fin 0) true].
Definition steadier : AaveUser :=
  mkUser "0xa3"
    [mkReserve "WETH" (Fin 0) (Fin 8600) (Fin 2) (Fin 10) (Fin 0) (Fin 0) true;
     mkReserve "DAI" (Fin 0) (Fin 7500) (Fin 1) (Fin 0) (Fin 20) (Fin 0) false].

(** A subgraph that answers the first request with the given users and
    every other request with none. *)
Definition oneBatch (users : list AaveUser) : Subgraph :=
  mkSubgraph (fun _ skip => Some (if (skip =? 0)%nat then users else []))
             (fun _ _ => Some []).

(** A debt of 100 units against a collateral of 10 units (18 decimals). *)
Definition debt100 : Z := (100 * 10 ^ 18)%Z.
Definition collateral10 : Z := (10 * 10 ^ 18)%Z.

(** One chain, never connected yet. *)
Definition mainnet : WebSocketManager.WebSocketConnection :=
  WebSocketManager.mkConnection 1%Z "Ethereum" None false 0%nat 0%Z [].
Definition fresh : WebSocketManager.Manager :=
  WebSocketManager.mkManager {[ 1%Z := mainnet ]} ∅.

(** The same chain with an open socket and one subscription. *)
Definition online : WebSocketManager.WebSocketConnection :=
  WebSocketManager.mkConnection 1%Z "Ethereum" (Some 11%Z) true 0%nat 0%Z ["newHeads"%string].
Definition live : WebSocketManager.Manager :=
  WebSocketManager.mkManager {[ 1%Z := online ]} ∅.

(** A position of a scan, and three identifiers. *)
Definition found : LiquidationPosition :=
  mkPosition "" "0xa1" (Fin (80 # 100)) "WETH" (Fin 10) "DAI" (Fin 20) (Fin 1600)
    monitoring.
Definition nextId (i : nat) : string :=
  match i with
  | O => "id-0"
  | S O => "id-1"
  | _ => "id-2"
  end.


(** A read whose health factor has five decimals, 0.86755. *)
Definition fineRead : DatabaseService.Call :=
  DatabaseService.mkCall 102%Z 3%Z
    (DatabaseService.mkInput 1%Z "0xu" "WETH" "DAI" 10%Z 14%Z
       (86755 # 100000) (8 # 10) (5 # 100) true).

End Samples.

(* ===================================================================== *)
(** * Properties of the on-chain liquidator *)
(* ===================================================================== *)

Module SimpleLiquidatorProofs.

Import SimpleLiquidator Statements Samples.

(** Checked arithmetic returns the exact result when it fits. *)
Lemma checked_add_fits a b :
  a + b <= MAX_UINT256 -> checked_add a b = Ok (a + b).
Proof.
  intros H. unfold checked_add.
  destruct (Z.leb_spec (a + b) MAX_UINT256); [reflexivity | lia].
Qed.

Lemma checked_add_overflows a b :
  MAX_UINT256 < a + b -> checked_add a b = Aborted PanicOverflow.
Proof.
  intros H. unfold checked_add.
  destruct (Z.leb_spec (a + b) MAX_UINT256); [lia | reflexivity].
Qed.

Lemma checked_sub_fits a b :
  b <= a -> checked_sub a b = Ok (a - b).
Proof.
  intros H. unfold checked_sub.
  destruct (Z.leb_spec b a); [reflexivity | lia].
Qed.

Lemma checked_mul_fits a b :
  a * b <= MAX_UINT256 -> checked_mul a b = Ok (a * b).
Proof.
  intros H. unfold checked_mul.
  destruct (Z.leb_spec (a * b) MAX_UINT256); [reflexivity | lia].
Qed.

Lemma checked_mul_overflows a b :
  MAX_UINT256 < a * b -> checked_mul a b = Aborted PanicOverflow.
Proof.
  intros H. unfold checked_mul.
  destruct (Z.leb_spec (a * b) MAX_UINT256); [lia | reflexivity].
Qed.

Lemma checked_div_10000 a : checked_div a 10000 = Ok (a / 10000).
Proof. reflexivity. Qed.

Lemma ltb_false_of_le a b : b <= a -> (a <? b) = false.
Proof. intros H. apply Z.ltb_ge. exact H. Qed.

Lemma ltb_true_of_lt a b : a < b -> (a <? b) = true.
Proof. intros H. apply Z.ltb_lt. exact H. Qed.

(** Sanity checks on concrete runs: 1_000_000 borrowed with a premium of 500;
    the floor is 1000. *)
Example finalize_short_balance :
  _finalizeLiquidation st0 9 (mkFinalizeCalls 1000499 true true) 1 1000000 500 2
  = Aborted (Revert InsufficientBalance).
Proof. reflexivity. Qed.

Example finalize_thin_profit :
  _finalizeLiquidation st0 9 (mkFinalizeCalls 1001499 true true) 1 1000000 500 2
  = Aborted (Revert InsufficientProfit).
Proof. reflexivity. Qed.

Example finalize_settles :
  _finalizeLiquidation st0 9 (mkFinalizeCalls 1001500 true true) 1 1000000 500 2
  = Ok (mkStorage 1000 1 7 false 7 false, [LiquidationExecuted 7 2 1000 1 0 0], true).
Proof. reflexivity. Qed.

(** C1, as stated, fails at the top of the [uint256] range: with
    [amount = 2^256 - 1] and [premium = 1] the balance (0) is below
    [amount + premium], and the call does not abort with
    [InsufficientBalance]: the checked addition panics first. *)
Lemma finalize_overflow_counterexample :
  is_uint256 MAX_UINT256 /\ is_uint256 1 /\ is_uint256 0 /\
  0 < MAX_UINT256 + 1 /\
  _finalizeLiquidation st0 9 (mkFinalizeCalls 0 true true) 1 MAX_UINT256 1 2
    = Aborted PanicOverflow /\
  (_finalizeLiquidation st0 9 (mkFinalizeCalls 0 true true) 1 MAX_UINT256 1 2
    = Aborted (Revert InsufficientBalance) -> False).
Proof.
  unfold is_uint256.
  repeat split; vm_compute; congruence.
Qed.

(** C1 (amended): when [amount + premium] and [amount * MIN_PROFIT_BPS] fit
    in 256 bits, the repay/profit phase aborts with [InsufficientBalance]
    if the final balance is below [amount + premium]; otherwise with
    [InsufficientProfit] if the profit is below
    [(amount * MIN_PROFIT_BPS) / 10000]; otherwise, when the two allowance
    calls go through and the cumulative counters do not overflow, it
    settles: the counters are updated, [LiquidationExecuted] is emitted and
    [true] is returned. *)
Theorem finalize_outcomes (st : Storage) (tx_origin asset targetUser : address)
    (ext : FinalizeCalls) (amount premium : Z) :
  amount + premium <= MAX_UINT256 ->
  amount * MIN_PROFIT_BPS <= MAX_UINT256 ->
  let finalBalance := fin_balanceOf ext in
  let totalRepayment := amount + premium in
  let profit := finalBalance - totalRepayment in
  let minProfit := (amount * MIN_PROFIT_BPS) / 10000 in
  let outcome := _finalizeLiquidation st tx_origin ext asset amount premium targetUser in
  (finalBalance < totalRepayment ->
     outcome = Aborted (Revert InsufficientBalance)) /\
  (totalRepayment <= finalBalance -> profit < minProfit ->
     outcome = Aborted (Revert InsufficientProfit)) /\
  (totalRepayment <= finalBalance -> minProfit <= profit ->
     fin_increaseAllowance ext = true -> fin_approve ext = true ->
     totalLiquidationsExecuted st + 1 <= MAX_UINT256 ->
     totalProfitGenerated st + profit <= MAX_UINT256 ->
     outcome = Ok (settled st tx_origin asset targetUser profit)).
Proof.
  intros Hadd Hmul finalBalance totalRepayment profit minProfit outcome.
  subst outcome. unfold _finalizeLiquidation.
  rewrite (checked_add_fits _ _ Hadd). cbn [bind].
  fold finalBalance totalRepayment.
  split; [| split].
  - intros Hlt. rewrite (ltb_true_of_lt _ _ Hlt). reflexivity.
  - intros Hge Hthin. rewrite (ltb_false_of_le _ _ Hge). cbn [negb].
    rewrite (checked_sub_fits _ _ Hge). cbn [bind].
    rewrite (checked_mul_fits _ _ Hmul). cbn [bind].
    rewrite checked_div_10000. cbn [bind].
    fold profit minProfit.
    rewrite (ltb_true_of_lt _ _ Hthin). reflexivity.
  - intros Hge Hok Hinc Happ Hcount Hsum.
    rewrite (ltb_false_of_le _ _ Hge). cbn [negb].
    rewrite (checked_sub_fits _ _ Hge). cbn [bind].
    rewrite (checked_mul_fits _ _ Hmul). cbn [bind].
    rewrite checked_div_10000. cbn [bind].
    fold profit minProfit.
    rewrite (ltb_false_of_le _ _ Hok). cbn [negb].
    rewrite Hinc, Happ.
    rewrite (checked_add_fits _ _ Hcount). cbn [bind].
    rewrite (checked_add_fits _ _ Hsum). cbn [bind].
    reflexivity.
Qed.

(** Outside of the 256-bit range the phase ends in an arithmetic panic. *)
Lemma finalize_panics_on_overflow (st : Storage) (tx_origin asset targetUser : address)
    (ext : FinalizeCalls) (amount premium : Z) :
  (MAX_UINT256 < amount + premium ->
     _finalizeLiquidation st tx_origin ext asset amount premium targetUser
     = Aborted PanicOverflow) /\
  (amount + premium <= fin_balanceOf ext -> amount + premium <= MAX_UINT256 ->
     MAX_UINT256 < amount * MIN_PROFIT_BPS ->
     _finalizeLiquidation st tx_origin ext asset amount premium targetUser
     = Aborted PanicOverflow).
Proof.
  unfold _finalizeLiquidation. split.
  - intros Hbig. rewrite (checked_add_overflows _ _ Hbig). reflexivity.
  - intros Hge Hadd Hbig. rewrite (checked_add_fits _ _ Hadd). cbn [bind].
    rewrite (ltb_false_of_le _ _ Hge). cbn [negb].
    rewrite (checked_sub_fits _ _ Hge). cbn [bind].
    rewrite (checked_mul_overflows _ _ Hbig). reflexivity.
Qed.

Lemma finalize_outcomes_witness :
  _finalizeLiquidation st0 9 (mkFinalizeCalls 1001500 true true) 1 1000000 500 2
  = Ok (settled st0 9 1 2 1000).
Proof.
  apply (finalize_outcomes st0 9 1 2 (mkFinalizeCalls 1001500 true true) 1000000 500);
    vm_compute; congruence.
Defined.

(** Sanity checks on the slippage floor: one unit at the largest accepted
    slippage, and the difference between multiplying first and dividing
    first. *)
Example floor_of_one_unit : minAmountOut 1 MAX_SLIPPAGE_BPS = Ok 0.
Proof. reflexivity. Qed.

Example floor_multiplies_first :
  minAmountOut 20000 150 = Ok 19700 /\ 20000 * ((10000 - 150) / 10000) = 0.
Proof. split; reflexivity. Qed.

Example floor_underflows_above_10000 : minAmountOut 5 10001 = Aborted PanicUnderflow.
Proof. reflexivity. Qed.


(** A submission is accepted only with a slippage within the maximum. *)
Lemma executeLiquidation_bounds_slippage (st st' : Storage) (msg_sender : address)
    (block_timestamp : Z) (targetUser collateralAsset debtAsset : address)
    (debtAmount maxSlippageBps deadline : Z) (req : FlashLoanRequest) :
  executeLiquidation st msg_sender block_timestamp targetUser collateralAsset
    debtAsset debtAmount maxSlippageBps deadline = Ok (st', req) ->
  maxSlippageBps <= MAX_SLIPPAGE_BPS /\
  p_maxSlippageBps (req_params req) = maxSlippageBps /\ entered st' = true.
Proof.
  unfold executeLiquidation. intros H.
  repeat match type of H with
  | (if ?b then _ else _) = _ => destruct b eqn:?; [| discriminate H]
  end.
  injection H as Hst Hreq. subst req st'. cbn.
  split; [| split; reflexivity].
  match goal with
  | E : negb (maxSlippageBps >? MAX_SLIPPAGE_BPS) = true |- _ =>
    apply negb_true_iff in E; rewrite Z.gtb_ltb in E; apply Z.ltb_ge in E; exact E
  end.
Qed.

Lemma executeLiquidation_rejects_slippage (st : Storage) (msg_sender : address)
    (block_timestamp : Z) (targetUser collateralAsset debtAsset : address)
    (debtAmount maxSlippageBps deadline : Z) :
  MAX_SLIPPAGE_BPS < maxSlippageBps ->
  exists r, executeLiquidation st msg_sender block_timestamp targetUser collateralAsset
    debtAsset debtAmount maxSlippageBps deadline = Aborted r.
Proof.
  intros Hbig.
  destruct (executeLiquidation st msg_sender block_timestamp targetUser collateralAsset
              debtAsset debtAmount maxSlippageBps deadline) as [[st' req] | r] eqn:E.
  - apply executeLiquidation_bounds_slippage in E. lia.
  - exists r. reflexivity.
Qed.


(** C2, as stated: a quote of one hop is not rejected.  For the direct
    path from WETH (address 6) the router reports two amounts, one hop, and
    the swap goes through. *)
Lemma one_hop_quote_accepted :
  _buildSwapPath im0 6 1 = [6; 1] /\
  sw_getAmountsOut (cb_swap calls0) 1100000 [6; 1] = Some [1100000; 1100000] /\
  (length [1100000%Z; 1100000%Z] - 1 < 2)%nat /\
  _executeSwap im0 900 (cb_swap calls0) 6 1 1100000 150 1000
  = Ok [SwapExecuted 6 1 1100000 1100000 0].
Proof. repeat split; cbn; lia. Qed.



(** ** The callback and the reentrancy guard *)

(** Called by the pool outside of a submission, the callback runs the
    whole pipeline: liquidation, swap, repayment and profit check. *)
Example callback_settles :
  executeOperation im0 5 st0 3 9 900 calls0 1 1000000 500 5 params0
  = Ok (mkStorage 1099500 1 7 false 7 false,
        [SwapExecuted 6 1 1100000 1100000 0;
         LiquidationExecuted 7 2 1099500 1 0 0],
        true).
Proof. reflexivity. Qed.

Example callback_refuses_other_callers :
  executeOperation im0 5 st0 8 9 900 calls0 1 1000000 500 5 params0
  = Aborted (Revert UnauthorizedCaller).
Proof. reflexivity. Qed.

(** X1: [executeLiquidation] and [executeOperation] are both [nonReentrant]:
    in the storage the contract is in while [POOL.flashLoanSimple] runs,
    the callback is refused by the guard, whatever its arguments. *)
Lemma callback_refused_during_submission (st st' : Storage) (msg_sender : address)
    (block_timestamp : Z) (targetUser collateralAsset debtAsset : address)
    (debtAmount maxSlippageBps deadline : Z) (req : FlashLoanRequest) :
  executeLiquidation st msg_sender block_timestamp targetUser collateralAsset
    debtAsset debtAmount maxSlippageBps deadline = Ok (st', req) ->
  forall im this caller tx_origin now ext asset amount premium initiator params,
    executeOperation im this st' caller tx_origin now ext asset amount premium
      initiator params = Aborted ReentrantCall.
Proof.
  intros Hsubmit. apply executeLiquidation_bounds_slippage in Hsubmit as (_ & _ & Hentered).
  intros. unfold executeOperation. rewrite Hentered. reflexivity.
Qed.

Lemma callback_refused_during_submission_witness :
  executeOperation im0 5
    (mkStorage 0 0 7 false 7 true) 3 7 900 calls0 1 1000000 500 5 params0
  = Aborted ReentrantCall.
Proof.
  apply (callback_refused_during_submission st0 (mkStorage 0 0 7 false 7 true)
           7 900 2 6 1 1000000 150 1000
           (mkRequest 1 1000000 params0)).
  reflexivity.
Defined.

(** X2: the slippage floor stays between 90% of the quote (up to rounding)
    and the quote. *)
Lemma slippage_floor_bounds (expectedOut slippageBps floor : Z) :
  0 <= expectedOut ->
  0 <= slippageBps <= MAX_SLIPPAGE_BPS ->
  minAmountOut expectedOut slippageBps = Ok floor ->
  floor <= expectedOut /\ 9 * expectedOut <= 10 * floor + 9.
Proof.
  intros Hout Hslip. unfold MAX_SLIPPAGE_BPS in Hslip. unfold minAmountOut.
  rewrite checked_sub_fits by lia. cbn [bind].
  unfold checked_mul. destruct (_ <=? _); [| discriminate].
  cbn [bind]. rewrite checked_div_10000. intros [= <-].
  pose proof (Z.div_mod (expectedOut * (10000 - slippageBps)) 10000 ltac:(lia)) as Hdm.
  pose proof (Z.mod_pos_bound (expectedOut * (10000 - slippageBps)) 10000 ltac:(lia)) as Hmod.
  split; nia.
Qed.

Lemma slippage_floor_bounds_witness :
  19700 <= 20000 /\ 9 * 20000 <= 10 * 19700 + 9.
Proof.
  apply (slippage_floor_bounds 20000 150 19700); vm_compute; intuition congruence.
Defined.

End SimpleLiquidatorProofs.

(* ===================================================================== *)
(** * Properties of JavaScript comparisons *)
(* ===================================================================== *)

Module JsNumberProofs.

Import JsNumber.
Local Open Scope Q_scope.

Lemma Qltb_lt x y : Qltb x y = true <-> x < y.
Proof.
  unfold Qltb. rewrite Qlt_alt.
  destruct (x ?= y); split; intros H; congruence.
Qed.

Lemma Qltb_ge x y : Qltb x y = false <-> y <= x.
Proof.
  split.
  - intros H. apply Qnot_lt_le. intros Hlt. apply Qltb_lt in Hlt. congruence.
  - intros H. destruct (Qltb x y) eqn:E; [| reflexivity].
    apply Qltb_lt in E. exfalso. apply (Qlt_not_le _ _ E). exact H.
Qed.

Lemma lt_ltq a b : lt a b = true <-> ltq a b.
Proof.
  destruct a as [x |], b as [y |]; cbn; try (split; [discriminate | tauto]).
  apply Qltb_lt.
Qed.

Lemma gt_ltq a b : gt a b = true <-> ltq b a.
Proof. unfold gt. apply lt_ltq. Qed.

Lemma le_leq a b : le a b = true <-> leq a b.
Proof.
  destruct a as [x |], b as [y |]; cbn; try (split; [discriminate | tauto]).
  apply Qle_bool_iff.
Qed.

Lemma ge_leq a b : ge a b = true <-> leq b a.
Proof. unfold ge. apply le_leq. Qed.

Lemma le_false_fin x y : le (Fin x) (Fin y) = false <-> y < x.
Proof.
  cbn. split.
  - intros H. apply Qnot_le_lt. intros Hle. apply Qle_bool_iff in Hle. congruence.
  - intros H. destruct (Qle_bool x y) eqn:E; [| reflexivity].
    apply Qle_bool_iff in E. exfalso. apply (Qlt_not_le _ _ H). exact E.
Qed.

Lemma gt_false_fin x y : gt (Fin x) (Fin y) = false <-> x <= y.
Proof. cbn. apply Qltb_ge. Qed.



Lemma gt_NaN_l b : gt NaN b = false.
Proof. destruct b; reflexivity. Qed.

Lemma gt_fin_inv a b : gt a b = true -> exists x y, a = Fin x /\ b = Fin y /\ y < x.
Proof.
  destruct a as [x |], b as [y |]; cbn; try discriminate.
  intros H. exists x, y. repeat split. apply Qltb_lt. exact H.
Qed.

(** A value equal to zero is not greater than zero. *)
Lemma eq_zero_not_gt a : eq a (Fin 0) = true -> gt a (Fin 0) = false.
Proof.
  destruct a as [x |]; cbn; [| discriminate].
  intros H. apply Qeq_bool_iff in H. apply Qltb_ge. rewrite H. apply Qle_refl.
Qed.

End JsNumberProofs.

(* ===================================================================== *)
(** * Properties of the health factor and of the classification *)
(* ===================================================================== *)

Module HealthFactorProofs.

Import JsNumber JsNumberProofs AaveService Statements Samples.
Local Open Scope Q_scope.

Example borrower_health_factor :
  equiv (healthFactor (calculateHealthFactor borrower)) (Fin 1) /\
  equiv (totalCollateralETH (calculateHealthFactor borrower)) (Fin 20) /\
  equiv (totalDebtETH (calculateHealthFactor borrower)) (Fin 16) /\
  equiv (currentLiquidationThreshold (calculateHealthFactor borrower)) (Fin (8 # 10)).
Proof. repeat split. Qed.

Example saver_health_factor :
  healthFactor (calculateHealthFactor saver) = Fin 999 /\
  HealthFactorCalculator.isLiquidatable (healthFactor (calculateHealthFactor saver)) = false.
Proof. split; reflexivity. Qed.


(** The two tests on finite bounds. *)
Lemma inMonitoringRange_iff hf lo hi :
  inMonitoringRange hf lo hi = true <-> leq lo hf /\ leq hf hi.
Proof.
  unfold inMonitoringRange. rewrite andb_true_iff, ge_leq, le_leq. tauto.
Qed.

Lemma statusOf_in_range hf lo hi :
  statusOf hf lo hi = in_range <-> leq lo hf /\ leq hf hi.
Proof.
  unfold statusOf. rewrite <- ge_leq, <- le_leq, <- andb_true_iff.
  destruct (ge hf lo && le hf hi); split; intros H; congruence.
Qed.

Lemma statusOf_monitoring hf lo hi :
  statusOf hf lo hi = monitoring <-> ~ (leq lo hf /\ leq hf hi).
Proof.
  rewrite <- statusOf_in_range. unfold statusOf.
  destruct (ge hf lo && le hf hi); split; intros H; congruence.
Qed.


(** On finite values [leq] and [ltq] are the order of the rationals. *)
Lemma not_leq_fin x y : ~ leq (Fin x) (Fin y) <-> ltq (Fin y) (Fin x).
Proof.
  cbn. split.
  - apply Qnot_le_lt.
  - intros H Hle. apply (Qlt_not_le _ _ H). exact Hle.
Qed.




(** ** The current liquidation threshold *)







End HealthFactorProofs.

(* ===================================================================== *)
(** * Properties of the opportunity scan *)
(* ===================================================================== *)

Module ScanProofs.

Import JsNumber JsNumberProofs AaveService Statements Samples.
Local Open Scope Q_scope.

(** ** The scan terminates *)

Section Scan.

Variables (sg : Subgraph).
Variables (ethPrice monitoringMin monitoringMax executionMin executionMax : num).
Variable (maxUsers : nat).

Local Abbreviation process := (processUsers ethPrice monitoringMin monitoringMax
                 executionMin executionMax maxUsers).
Local Abbreviation loop := (fun fuel => scanLoop fuel sg ethPrice monitoringMin monitoringMax
                          executionMin executionMax maxUsers).

Lemma processUsers_counts (users : list AaveUser) (processed : nat)
    (acc : list LiquidationPosition) :
  (processed <= fst (process users processed acc))%nat.
Proof.
  revert processed acc.
  induction users as [| u rest IH]; intros processed acc; cbn [processUsers fst].
  - lia.
  - destruct (maxUsers <=? processed)%nat; cbn [fst]; [lia |].
    etransitivity; [| apply IH]. lia.
Qed.

Lemma processUsers_progress (u : AaveUser) (rest : list AaveUser) (processed : nat)
    (acc : list LiquidationPosition) :
  (processed < maxUsers)%nat ->
  (processed < fst (process (u :: rest) processed acc))%nat.
Proof.
  intros Hlt. cbn [processUsers].
  destruct (Nat.leb_spec maxUsers processed) as [Hle | _]; [lia |].
  eapply Nat.lt_le_trans; [| apply processUsers_counts]. lia.
Qed.

(** Enough fuel: one unit per user still to process, and one more. *)
Lemma scanLoop_terminates (fuel processed skip : nat) (acc : list LiquidationPosition) :
  (maxUsers - processed < fuel)%nat ->
  exists outcome, loop fuel processed skip acc = Some outcome.
Proof.
  cbv beta. revert processed skip acc.
  induction fuel as [| fuel IH]; intros processed skip acc Hfuel; [lia |].
  cbn [scanLoop].
  destruct (Nat.ltb_spec processed maxUsers) as [Hlt | Hge]; [| eauto].
  destruct (usersWithDebt sg _ skip) as [vs |]; [| eauto].
  destruct (usersWithStableDebt sg _ skip) as [ss |]; [| eauto].
  destruct (deduplicate (vs ++ ss)) as [| u rest]; [eauto |].
  pose proof (processUsers_progress u rest processed acc Hlt) as Hprog.
  destruct (processUsers _ _ _ _ _ _ (u :: rest) processed acc) as [processed' acc'].
  cbn [fst] in Hprog. apply IH. lia.
Qed.

(** ** What the scan collects *)

Variable P : LiquidationPosition -> Prop.
Hypothesis P_converted :
  forall healthData position,
    inMonitoringRange (healthFactor healthData) monitoringMin monitoringMax = true ->
    convertToLiquidationPosition ethPrice healthData executionMin executionMax
      = Some position ->
    P position.

Lemma processUsers_collects (users : list AaveUser) (processed : nat)
    (acc : list LiquidationPosition) :
  Forall P acc -> Forall P (snd (process users processed acc)).
Proof.
  revert processed acc.
  induction users as [| u rest IH]; intros processed acc Hacc; cbn [processUsers snd].
  - exact Hacc.
  - destruct (maxUsers <=? processed)%nat; [exact Hacc |].
    apply IH.
    destruct (inMonitoringRange _ _ _) eqn:Hband; [| exact Hacc].
    destruct (convertToLiquidationPosition _ _ _ _) as [position |] eqn:Hconv; [| exact Hacc].
    apply Forall_app. split; [exact Hacc |].
    constructor; [| constructor]. eapply P_converted; eassumption.
Qed.

Lemma scanLoop_collects (fuel processed skip : nat) (acc positions : list LiquidationPosition) :
  Forall P acc ->
  loop fuel processed skip acc = Some (Completed positions) ->
  Forall P positions.
Proof.
  cbv beta. revert processed skip acc.
  induction fuel as [| fuel IH]; intros processed skip acc Hacc; cbn [scanLoop]; [discriminate |].
  destruct (processed <? maxUsers)%nat; [| intros [= <-]; exact Hacc].
  destruct (usersWithDebt sg _ skip) as [vs |]; [| discriminate].
  destruct (usersWithStableDebt sg _ skip) as [ss |]; [| discriminate].
  destruct (deduplicate (vs ++ ss)) as [| u rest]; [intros [= <-]; exact Hacc |].
  pose proof (processUsers_collects (u :: rest) processed acc Hacc) as Hcol.
  destruct (processUsers _ _ _ _ _ _ (u :: rest) processed acc) as [processed' acc'].
  cbn [snd] in Hcol. apply IH. exact Hcol.
Qed.


End Scan.

(** The position made from a health record carries its health factor and
    the status of the execution-range test. *)
Lemma convert_carries (ethPrice : num) (healthData : HealthFactorData)
    (executionMin executionMax : num) (position : LiquidationPosition) :
  convertToLiquidationPosition ethPrice healthData executionMin executionMax
    = Some position ->
  pos_healthFactor position = healthFactor healthData /\
  pos_status position = statusOf (healthFactor healthData) executionMin executionMax.
Proof.
  unfold convertToLiquidationPosition.
  destruct (fold_left largestStep _ _) as [largestCollateral largestDebt].
  destruct (_ || _); [discriminate |].
  intros [= <-]. split; reflexivity.
Qed.

(** ** The sort *)

Lemma inBand_finite lo hi p : inBand lo hi p -> finiteHf p.
Proof.
  unfold inBand, finiteHf. intros [H _].
  destruct (pos_healthFactor p) as [q |]; [eauto |].
  destruct lo; contradiction.
Qed.

Lemma hfLe_trans a b c : hfLe a b -> hfLe b c -> hfLe a c.
Proof.
  unfold hfLe.
  destruct (pos_healthFactor a), (pos_healthFactor b), (pos_healthFactor c);
    cbn; try contradiction.
  apply Qle_trans.
Qed.

(** The comparator on finite health factors. *)
Lemma compareFn_positive y x :
  gt (compareFn y x) zero = true -> hfLe x y.
Proof.
  unfold compareFn, hfLe, zero. intros H.
  apply gt_fin_inv in H as (d & z & Hd & Hz & Hpos). injection Hz as <-.
  destruct (pos_healthFactor y) as [hy |], (pos_healthFactor x) as [hx |];
    cbn in Hd; try discriminate.
  injection Hd as <-. cbn. lra.
Qed.

Lemma compareFn_not_positive y x :
  finiteHf x -> finiteHf y -> gt (compareFn y x) zero = false -> hfLe y x.
Proof.
  unfold compareFn, hfLe, zero. intros [hx ->] [hy ->]. cbn [sub lift2].
  intros H. apply gt_false_fin in H. cbn. lra.
Qed.

Lemma insertSorted_perm x l : Permutation (insertSorted x l) (x :: l).
Proof.
  induction l as [| y l IH]; cbn [insertSorted]; [reflexivity |].
  destruct (gt (compareFn y x) zero); [reflexivity |].
  rewrite IH. apply perm_swap.
Qed.

Lemma sort_fold_perm l acc :
  Permutation (fold_left (fun sorted x => insertSorted x sorted) l acc) (l ++ acc).
Proof.
  revert acc. induction l as [| x l IH]; intros acc; cbn [fold_left app]; [reflexivity |].
  rewrite IH, insertSorted_perm. symmetry. apply Permutation_middle.
Qed.

Lemma sortPositions_perm l : Permutation (sortPositions l) l.
Proof.
  unfold sortPositions. rewrite sort_fold_perm. rewrite app_nil_r. reflexivity.
Qed.

Lemma insertSorted_sorted x l :
  finiteHf x -> Forall finiteHf l ->
  StronglySorted hfLe l -> StronglySorted hfLe (insertSorted x l).
Proof.
  intros Hx Hfin Hsorted.
  induction Hsorted as [| y l Hsorted IH Hy]; cbn [insertSorted].
  - repeat constructor.
  - inversion Hfin as [| ? ? Hyfin Hlfin]; subst.
    destruct (gt (compareFn y x) zero) eqn:Hcmp.
    + constructor; [constructor; assumption |].
      apply compareFn_positive in Hcmp.
      constructor; [exact Hcmp |].
      eapply List.Forall_impl; [| exact Hy].
      intros z Hz. eapply hfLe_trans; eassumption.
    + constructor; [apply IH; exact Hlfin |].
      eapply Permutation_Forall; [symmetry; apply insertSorted_perm |].
      constructor; [| exact Hy].
      apply compareFn_not_positive; assumption.
Qed.

Lemma sort_fold_sorted l acc :
  Forall finiteHf l -> Forall finiteHf acc -> StronglySorted hfLe acc ->
  StronglySorted hfLe (fold_left (fun sorted x => insertSorted x sorted) l acc).
Proof.
  revert acc. induction l as [| x l IH]; intros acc Hl Hacc Hsorted; cbn [fold_left];
    [exact Hsorted |].
  inversion Hl; subst. apply IH; [assumption | |].
  - eapply Permutation_Forall; [symmetry; apply insertSorted_perm |].
    constructor; assumption.
  - apply insertSorted_sorted; assumption.
Qed.

Lemma sortPositions_sorted l :
  Forall finiteHf l -> StronglySorted hfLe (sortPositions l).
Proof.
  intros Hl. apply sort_fold_sorted; [exact Hl | constructor | constructor].
Qed.

Example scan_sorts_and_filters :
  exists first second,
    getLiquidationOpportunities (oneBatch [steadier; idle; riskier]) (Fin 3200)
      DEFAULT_MONITORING_MIN DEFAULT_MONITORING_MAX
      DEFAULT_EXECUTION_MIN DEFAULT_EXECUTION_MAX 100
    = Some ([first; second], []) /\
    pos_userAddress first = "0xa1"%string /\ pos_status first = monitoring /\
    equiv (pos_healthFactor first) (Fin (80 # 100)) /\
    pos_userAddress second = "0xa3"%string /\ pos_status second = in_range /\
    equiv (pos_healthFactor second) (Fin (86 # 100)).
Proof. vm_compute. do 2 eexists. repeat split. Qed.

(** With [maxUsers = 1] only the first user of the batch is processed, and
    a user returned by both queries is processed once. *)
Example scan_stops_at_maxUsers :
  exists only,
    getLiquidationOpportunities (oneBatch [steadier; idle; riskier]) (Fin 3200)
      DEFAULT_MONITORING_MIN DEFAULT_MONITORING_MAX
      DEFAULT_EXECUTION_MIN DEFAULT_EXECUTION_MAX 1
    = Some ([only], []) /\
    pos_userAddress only = "0xa3"%string.
Proof. vm_compute. eexists. split; reflexivity. Qed.

Example scan_deduplicates :
  deduplicate ([steadier; riskier] ++ [riskier; idle]) = [steadier; riskier; idle].
Proof. reflexivity. Qed.

Example scan_reports_failed_request :
  getLiquidationOpportunities (mkSubgraph (fun _ _ => None) (fun _ _ => Some []))
    (Fin 3200) DEFAULT_MONITORING_MIN DEFAULT_MONITORING_MAX
    DEFAULT_EXECUTION_MIN DEFAULT_EXECUTION_MAX 100
  = Some ([], [ERROR_FETCHING]).
Proof. reflexivity. Qed.

(** C10: the scan always returns, the list it returns is in ascending
    order of health factor, and every health factor in it lies in the
    monitoring band; each position carries the status of the
    execution-range test. *)
Theorem opportunities_sorted_in_band (sg : Subgraph)
    (ethPrice monitoringMin monitoringMax executionMin executionMax : num)
    (maxUsers : nat) :
  exists positions console,
    getLiquidationOpportunities sg ethPrice monitoringMin monitoringMax
      executionMin executionMax maxUsers = Some (positions, console) /\
    StronglySorted hfLe positions /\
    Forall (inBand monitoringMin monitoringMax) positions /\
    Forall (fun p => pos_status p
                     = statusOf (pos_healthFactor p) executionMin executionMax)
           positions.
Proof.
  unfold getLiquidationOpportunities.
  destruct (scanLoop_terminates sg ethPrice monitoringMin monitoringMax
              executionMin executionMax maxUsers (S maxUsers) 0 0 [])
    as [outcome Hloop]; [lia |].
  cbv beta in Hloop. rewrite Hloop.
  destruct outcome as [collected |].
  - exists (sortPositions collected), []. split; [reflexivity |].
    assert (Hcol : Forall (fun p => inBand monitoringMin monitoringMax p /\
                     pos_status p = statusOf (pos_healthFactor p) executionMin executionMax)
                   collected).
    { eapply (scanLoop_collects sg ethPrice monitoringMin monitoringMax
                executionMin executionMax maxUsers); [| constructor | exact Hloop].
      intros healthData position Hband Hconv.
      apply convert_carries in Hconv as [Hhf Hstatus].
      unfold inBand. rewrite Hhf, Hstatus. split; [| reflexivity].
      apply HealthFactorProofs.inMonitoringRange_iff. exact Hband. }
    apply Forall_and_inv in Hcol as [Hband Hstatus].
    split; [| split].
    + apply sortPositions_sorted.
      eapply List.Forall_impl; [| exact Hband]. intros p. apply inBand_finite.
    + eapply Permutation_Forall; [symmetry; apply sortPositions_perm | exact Hband].
    + eapply Permutation_Forall; [symmetry; apply sortPositions_perm | exact Hstatus].
  - exists [], [ERROR_FETCHING]. repeat split; constructor.
Qed.

End ScanProofs.

(* ===================================================================== *)
(** * Entries without a price *)
(* ===================================================================== *)

Module MissingPriceProofs.

Import JsNumber JsNumberProofs AaveService Statements Samples.
Local Open Scope Q_scope.








End MissingPriceProofs.

(* ===================================================================== *)
(** * The liquidation amount *)
(* ===================================================================== *)

Module OrchestratorProofs.

Import HealthFactorCalculator Samples.

(** Half of the collateral, however it is written. *)
Lemma maxLiquidationCollateral_half (collateralAmount : Z) :
  maxLiquidationCollateral collateralAmount = collateralAmount ÷ 2.
Proof.
  unfold maxLiquidationCollateral, parseUnits_0_5, parseUnits_1.
  replace (10 ^ 18) with (2 * (5 * 10 ^ 17)) by reflexivity.
  apply Z.quot_mul_cancel_r; discriminate.
Qed.

(** C6, as stated, fails: with a debt of 100 and a collateral of 10 the
    two bounds are 50 and 5, and the amount selected is 5, the smaller one,
    not 50. *)
Lemma larger_amount_counterexample :
  maxLiquidationDebt debt100 = 50 * 10 ^ 18 /\
  maxLiquidationCollateral collateral10 = 5 * 10 ^ 18 /\
  maxLiquidationAmount debt100 collateral10 = 5 * 10 ^ 18 /\
  Z.max (maxLiquidationDebt debt100) (maxLiquidationCollateral collateral10) = 50 * 10 ^ 18.
Proof. repeat split. Qed.

(** C6 (amended): the amount selected for an opportunity is the smaller
    of half the debt and half the collateral, each rounded towards zero. *)
Theorem maxLiquidationAmount_is_smaller (estimateGas : Z -> option Z)
    (liquidationBonus : Z) (position : DatabaseService.PositionInput) :
  let debtAmount := DatabaseService.debt_amount position in
  let collateralAmount := DatabaseService.collateral_amount position in
  opp_maxLiquidationAmount
    (analyzeLiquidationOpportunity estimateGas liquidationBonus position)
  = maxLiquidationAmount debtAmount collateralAmount /\
  maxLiquidationAmount debtAmount collateralAmount
  = Z.min (debtAmount ÷ 2) (collateralAmount ÷ 2) /\
  maxLiquidationAmount debtAmount collateralAmount <= debtAmount ÷ 2 /\
  maxLiquidationAmount debtAmount collateralAmount <= collateralAmount ÷ 2.
Proof.
  intros debtAmount collateralAmount.
  assert (Hmin : maxLiquidationAmount debtAmount collateralAmount
                 = Z.min (debtAmount ÷ 2) (collateralAmount ÷ 2)).
  { unfold maxLiquidationAmount. rewrite maxLiquidationCollateral_half.
    unfold maxLiquidationDebt.
    destruct (Z.ltb_spec (debtAmount ÷ 2) (collateralAmount ÷ 2)); lia. }
  split; [reflexivity |]. split; [exact Hmin |]. rewrite Hmin. lia.
Qed.

End OrchestratorProofs.

(* ===================================================================== *)
(** * The reconnection schedule *)
(* ===================================================================== *)

Module ReconnectProofs.

Import WebSocketManager Samples.

(** Seven failures in a row: five timers with doubling delays, then none. *)
Example seven_failures :
  snd (failures 7 fresh 1)
  = [Some (mkTimeout 1 5000); Some (mkTimeout 1 10000); Some (mkTimeout 1 20000);
     Some (mkTimeout 1 40000); Some (mkTimeout 1 80000); None; None].
Proof. vm_compute. reflexivity. Qed.

(** C5: the [n]-th reconnection attempt ([n >= 1], the counter standing at
    [n - 1] before it) is scheduled after [reconnectDelay * 2^(n-1)] and
    leaves the stored attempt counter of the chain at [n], one more than
    before, the other fields of the connection as they were, as long as [n]
    is at most the maximum of 5; once the counter has reached 5 nothing is
    scheduled, and the manager, the counter with it, is unchanged.  The
    first attempt waits [reconnectDelay], the fourth [reconnectDelay * 8]. *)
Theorem reconnect_backoff (m : Manager) (chain : Z) (c : WebSocketConnection) (n : nat) :
  connections m !! chain = Some c ->
  (1 <= n)%nat ->
  reconnectAttempts c = (n - 1)%nat ->
  ((n <= maxReconnectAttempts)%nat ->
     exists m' c',
       scheduleReconnect m chain
       = (m', Some (mkTimeout chain (reconnectDelay * 2 ^ (Z.of_nat n - 1))),
          [ReconnectionScheduled chain (reconnectDelay * 2 ^ (Z.of_nat n - 1)) n]) /\
       connections m' !! chain = Some c' /\
       reconnectAttempts c' = n /\
       reconnectAttempts c' = S (reconnectAttempts c) /\
       (chainId c', chainName c', ws c', isConnected c', lastPing c', subscriptions c')
       = (chainId c, chainName c, ws c, isConnected c, lastPing c, subscriptions c) /\
       reconnectIntervals m' !! chain
       = Some (mkTimeout chain (reconnectDelay * 2 ^ (Z.of_nat n - 1)))) /\
  ((maxReconnectAttempts < n)%nat ->
     scheduleReconnect m chain
     = (m, None, [MaxReconnectionAttemptsReached chain (n - 1)]) /\
     (5 <= reconnectAttempts c)%nat) /\
  backoff 1 = reconnectDelay /\
  backoff 4 = reconnectDelay * 8 /\
  maxReconnectAttempts = 5%nat.
Proof.
  intros Hconn Hn Hattempts.
  split; [| split; [| repeat split]].
  - intros Hmax. unfold scheduleReconnect. rewrite Hconn, Hattempts.
    destruct (Nat.leb_spec maxReconnectAttempts (n - 1)) as [Hle | _]; [lia |].
    replace (S (n - 1)) with n by lia.
    eexists. eexists. split; [reflexivity |]. cbn [connections reconnectIntervals].
    split; [apply lookup_insert_eq |].
    split; [reflexivity |]. split; [cbn; lia |]. split; [reflexivity |].
    apply lookup_insert_eq.
  - intros Hmax. unfold scheduleReconnect. rewrite Hconn, Hattempts.
    destruct (Nat.leb_spec maxReconnectAttempts (n - 1)) as [_ | Hlt];
      [| lia].
    split; [reflexivity |]. unfold maxReconnectAttempts in Hmax. lia.
Qed.

Lemma reconnect_backoff_witness :
  exists m' c',
    scheduleReconnect fresh 1
    = (m', Some (mkTimeout 1 5000), [ReconnectionScheduled 1 5000 1]) /\
    connections m' !! 1 = Some c' /\
    reconnectAttempts c' = 1%nat /\
    reconnectAttempts c' = S (reconnectAttempts mainnet) /\
    (chainId c', chainName c', ws c', isConnected c', lastPing c', subscriptions c')
    = (chainId mainnet, chainName mainnet, ws mainnet, isConnected mainnet,
       lastPing mainnet, subscriptions mainnet) /\
    reconnectIntervals m' !! 1 = Some (mkTimeout 1 5000).
Proof.
  apply (reconnect_backoff fresh 1 mainnet 1); [reflexivity | lia | reflexivity |].
  unfold maxReconnectAttempts. lia.
Defined.

End ReconnectProofs.

(* ===================================================================== *)
(** * The position upsert *)
(* ===================================================================== *)

Module UpsertProofs.

Import DatabaseService Statements Samples.

(** ** The schema *)

Lemma schema_sql_has_no_arbiter : hasArbiter schema_sql = false.
Proof. reflexivity. Qed.

Lemma keyed_has_arbiter : hasArbiter keyed = true.
Proof. vm_compute. reflexivity. Qed.

(** Without a matching unique constraint every call is refused. *)
Lemma upsert_unplanned (schema : Schema) (now uuid : Z) (position : PositionInput)
    (table : gmap Key LiquidationPosition) :
  hasArbiter schema = false ->
  upsertLiquidationPosition schema now uuid position table = inl InvalidColumnReference.
Proof. intros H. unfold upsertLiquidationPosition. rewrite H. reflexivity. Qed.

Lemma upsertAll_unchanged (calls : list Call) (table : gmap Key LiquidationPosition) :
  upsertAll calls table = table.
Proof.
  unfold upsertAll, upsertAllIn. revert table.
  induction calls as [| c calls IH]; intros table; [reflexivity |].
  cbn [fold_left]. rewrite (upsert_unplanned schema_sql) by reflexivity. apply IH.
Qed.

(** ** Rounding to four decimals *)

Lemma Qfloor_half (n : Z) : Qfloor (inject_Z n + (1 # 2)) = n.
Proof.
  cbn. symmetry. apply (Z.div_unique_pos _ _ n 1); lia.
Qed.

Lemma Qceiling_half (n : Z) : Qceiling (inject_Z n - (1 # 2)) = n.
Proof.
  unfold Qceiling.
  assert (H : (- (inject_Z n - (1 # 2)) == inject_Z (- n) + (1 # 2))%Q).
  { rewrite inject_Z_opp. ring. }
  rewrite H, Qfloor_half. lia.
Qed.

Lemma round_half_away_integer (q : Q) (n : Z) :
  (q == inject_Z n)%Q -> round_half_away q = n.
Proof.
  intros H. unfold round_half_away.
  destruct (Qle_bool 0 q); rewrite H; [apply Qfloor_half | apply Qceiling_half].
Qed.

Lemma decimal_4_exact (q : Q) :
  decimal_10_4 q -> exists q', decimal_4 q = Some q' /\ (q' == q)%Q.
Proof.
  intros (n & Hq & Hn). unfold decimal_4.
  assert (Hround : round_half_away (q * 10000) = n).
  { apply round_half_away_integer. rewrite Hq.
    unfold Qeq. cbn. lia. }
  rewrite Hround.
  destruct (Z.ltb_spec (Z.abs n) (10 ^ 10)) as [_ | Hbig]; [| lia].
  exists (n # 10000)%Q. split; [reflexivity | symmetry; exact Hq].
Qed.

(** The columns hold a storable position as it is given. *)
Lemma stored_storable (p : PositionInput) :
  storable p -> exists values, stored p = Some values /\ samePosition values p /\
                               keyOf values = keyOf p.
Proof.
  intros (Hchain & Huser & Hcoll & Hdebt & Hca & Hda & Hhf & Hlt & Hlb).
  destruct (decimal_4_exact _ Hhf) as (hf & Ehf & Hhf').
  destruct (decimal_4_exact _ Hlt) as (lt & Elt & Hlt').
  destruct (decimal_4_exact _ Hlb) as (lb & Elb & Hlb').
  unfold stored, integer, varchar_42, decimal_78_18.
  destruct (Z.leb_spec (- 2 ^ 31) (chain_id p)) as [_ | Hbad]; [| lia].
  destruct (Z.ltb_spec (chain_id p) (2 ^ 31)) as [_ | Hbad]; [| lia].
  cbn [andb mbind option_bind].
  rewrite (proj2 (Nat.leb_le _ _) Huser). cbn [mbind option_bind].
  rewrite (proj2 (Nat.leb_le _ _) Hcoll). cbn [mbind option_bind].
  rewrite (proj2 (Nat.leb_le _ _) Hdebt). cbn [mbind option_bind].
  destruct (Z.ltb_spec (Z.abs (collateral_amount p)) (10 ^ 78)) as [_ | Hbad]; [| lia].
  destruct (Z.ltb_spec (Z.abs (debt_amount p)) (10 ^ 78)) as [_ | Hbad]; [| lia].
  cbn [mbind option_bind].
  rewrite Ehf, Elt, Elb. cbn [mbind option_bind].
  eexists. split; [reflexivity |].
  split; [| reflexivity].
  unfold samePosition. cbn. auto 12.
Qed.

Lemma storedKey_storable (call : Call) :
  storable (call_position call) -> storedKey call = Some (keyOf (call_position call)).
Proof.
  intros H. destruct (stored_storable _ H) as (values & E & _ & Hkey).
  unfold storedKey. rewrite E. cbn. rewrite Hkey. reflexivity.
Qed.

(** ** One call, and a sequence of calls *)

(** Under the unique constraint a call whose values are taken overwrites
    whatever is stored under its key. *)
Lemma upsert_stores (now uuid : Z) (position values : PositionInput)
    (table : gmap Key LiquidationPosition) :
  stored position = Some values ->
  exists row,
    upsertLiquidationPosition keyed now uuid position table
    = inr (<[keyOf values := row]> table, row) /\
    row_position row = values /\ last_updated row = now /\
    (forall old, table !! keyOf values = Some old ->
       row_id row = row_id old /\ created_at row = created_at old) /\
    (table !! keyOf values = None -> row_id row = uuid /\ created_at row = now).
Proof.
  intros Hstored. unfold upsertLiquidationPosition.
  rewrite keyed_has_arbiter, Hstored. cbn [negb].
  eexists. split; [reflexivity |].
  destruct (table !! keyOf values) as [existing |];
    (split; [reflexivity |]; split; [reflexivity |]; split).
  - intros old [= <-]. split; reflexivity.
  - discriminate.
  - discriminate.
  - intros _. split; reflexivity.
Qed.

Lemma upsertAllIn_snoc (schema : Schema) (calls : list Call) (c : Call)
    (table : gmap Key LiquidationPosition) :
  upsertAllIn schema (calls ++ [c]) table
  = match upsertLiquidationPosition schema (call_now c) (call_uuid c) (call_position c)
            (upsertAllIn schema calls table) with
    | inr (t', _) => t'
    | inl _ => upsertAllIn schema calls table
    end.
Proof.
  unfold upsertAllIn. rewrite fold_left_app. reflexivity.
Qed.

Lemma upsert_other_key (schema : Schema) (c : Call)
    (table : gmap Key LiquidationPosition) (k : Key) :
  storedKey c <> Some k ->
  match upsertLiquidationPosition schema (call_now c) (call_uuid c) (call_position c)
          table with
  | inr (t', _) => t'
  | inl _ => table
  end !! k = table !! k.
Proof.
  intros Hne. unfold upsertLiquidationPosition, storedKey in *.
  destruct (hasArbiter schema); cbn [negb]; [| reflexivity].
  destruct (stored (call_position c)) as [values |]; [| reflexivity].
  apply lookup_insert_ne. intros Heq. apply Hne. cbn. rewrite Heq. reflexivity.
Qed.



(** Ties are rounded away from zero: 0.86755 is stored as 0.8676. *)
Example fine_read_is_rounded :
  health_factor <$> stored (call_position fineRead) = Some (8676 # 10000)%Q.
Proof. vm_compute. reflexivity. Qed.




End UpsertProofs.

(* ===================================================================== *)
(** * Further properties of the flash-loan callback *)
(* ===================================================================== *)

Module CallbackProofs.

Import SimpleLiquidator Statements Samples.

(** What a successful checked operation returned. *)
Lemma checked_add_inv a b z : checked_add a b = Ok z -> z = a + b /\ a + b <= MAX_UINT256.
Proof.
  unfold checked_add. destruct (Z.leb_spec (a + b) MAX_UINT256); [| discriminate].
  intros [= <-]. split; [reflexivity | assumption].
Qed.

Lemma checked_sub_inv a b z : checked_sub a b = Ok z -> z = a - b /\ b <= a.
Proof.
  unfold checked_sub. destruct (Z.leb_spec b a); [| discriminate].
  intros [= <-]. split; [reflexivity | assumption].
Qed.

Lemma checked_mul_inv a b z : checked_mul a b = Ok z -> z = a * b /\ a * b <= MAX_UINT256.
Proof.
  unfold checked_mul. destruct (Z.leb_spec (a * b) MAX_UINT256); [| discriminate].
  intros [= <-]. split; [reflexivity | assumption].
Qed.

Lemma checked_div_inv a b z : checked_div a b = Ok z -> z = a / b /\ b <> 0.
Proof.
  unfold checked_div. destruct (Z.eqb_spec b 0); [discriminate |].
  intros [= <-]. split; [reflexivity | assumption].
Qed.

(** One step back through a [bind] or a [require]. *)
Ltac back H :=
  match type of H with
  | bind ?m _ = Ok _ =>
    let E := fresh "E" in
    destruct m eqn:E; cbn [bind] in H; [| discriminate H]
  | (if ?b then _ else _) = Ok _ =>
    let E := fresh "E" in
    destruct b eqn:E; try discriminate H
  | (match ?o with Some _ => _ | None => _ end) = Ok _ =>
    let E := fresh "E" in
    destruct o eqn:E; try discriminate H
  end.

(** A settlement happened only with the repayment covered and the profit
    at or above the floor. *)
Lemma finalize_inv (st : Storage) (tx_origin asset targetUser : address)
    (ext : FinalizeCalls) (amount premium : Z) r :
  _finalizeLiquidation st tx_origin ext asset amount premium targetUser = Ok r ->
  amount + premium <= fin_balanceOf ext /\
  (amount * MIN_PROFIT_BPS) / 10000 <= fin_balanceOf ext - (amount + premium) /\
  r = settled st tx_origin asset targetUser (fin_balanceOf ext - (amount + premium)).
Proof.
  unfold _finalizeLiquidation. intros H.
  repeat back H.
  apply checked_add_inv in E as [-> _].
  apply negb_true_iff, Z.ltb_ge in E0.
  apply checked_sub_inv in E1 as [-> _].
  apply checked_mul_inv in E2 as [-> _].
  apply checked_div_inv in E3 as [-> _].
  apply negb_true_iff, Z.ltb_ge in E4.
  apply checked_add_inv in E6 as [-> _].
  apply checked_add_inv in E7 as [-> _].
  injection H as <-. repeat split; assumption.
Qed.

Lemma handleSuccess_inv (im : Immutables) (st : Storage) (tx_origin : address)
    (block_timestamp : Z) (ext : CallbackCalls) (asset : address) (amount premium : Z)
    (collateralAsset debtAsset : address) (collateralBefore maxSlippageBps deadline : Z)
    (targetUser : address) r :
  _handleLiquidationSuccess im st tx_origin block_timestamp ext asset amount premium
    collateralAsset debtAsset collateralBefore maxSlippageBps deadline targetUser = Ok r ->
  collateralBefore < cb_collateralAfter ext /\
  amount + premium <= fin_balanceOf (cb_finalize ext) /\
  (amount * MIN_PROFIT_BPS) / 10000
    <= fin_balanceOf (cb_finalize ext) - (amount + premium) /\
  exists swapped,
    r = (fst (fst (settled st tx_origin asset targetUser
                     (fin_balanceOf (cb_finalize ext) - (amount + premium)))),
         swapped ++ snd (fst (settled st tx_origin asset targetUser
                     (fin_balanceOf (cb_finalize ext) - (amount + premium)))),
         true).
Proof.
  unfold _handleLiquidationSuccess. intros H.
  repeat back H.
  apply checked_sub_inv in E as [-> Hle].
  apply negb_true_iff, Z.eqb_neq in E0.
  apply finalize_inv in E2 as (Hcovered & Hfloor & ->).
  cbn in H. injection H as <-.
  repeat split; try assumption; [lia |].
  eexists. reflexivity.
Qed.

(** X3: when the callback returns, it returns [true] to the pool that lent to
    this contract, before the deadline; collateral was seized, the final
    balance covers the repayment and leaves a profit at or above the floor;
    exactly one liquidation and exactly that profit were added to the
    counters; the guard is released and nothing else in storage changed;
    the last event is the settlement. *)
Theorem callback_success_accounts (im : Immutables) (this : address) (st st' : Storage)
    (msg_sender tx_origin : address) (block_timestamp : Z) (ext : CallbackCalls)
    (asset : address) (amount premium : Z) (initiator : address) (params : Params)
    (events : list Event) (success : bool) :
  executeOperation im this st msg_sender tx_origin block_timestamp ext asset amount
    premium initiator params = Ok (st', events, success) ->
  let profit := fin_balanceOf (cb_finalize ext) - (amount + premium) in
  success = true /\
  msg_sender = POOL im /\ initiator = this /\ entered st = false /\
  block_timestamp <= p_deadline params /\
  cb_collateralBefore ext < cb_collateralAfter ext /\
  amount + premium <= fin_balanceOf (cb_finalize ext) /\
  (amount * MIN_PROFIT_BPS) / 10000 <= profit /\
  totalLiquidationsExecuted st' = totalLiquidationsExecuted st + 1 /\
  totalProfitGenerated st' = totalProfitGenerated st + profit /\
  entered st' = false /\ paused st' = paused st /\ owner st' = owner st /\
  lastExecutor st' = lastExecutor st /\
  exists swapped executor,
    events = swapped ++ [LiquidationExecuted executor (p_targetUser params) profit asset 0 0].
Proof.
  unfold executeOperation. intros H.
  repeat back H.
  destruct a as [[st1 events1] success1]. injection H as <- <- <-.
  unfold _processLiquidation in E2. repeat back E2.
  apply handleSuccess_inv in E2 as (Hseized & Hcovered & Hfloor & swapped & Hr).
  injection Hr as -> -> ->.
  apply negb_true_iff in E. apply Z.eqb_eq in E0, E1.
  apply negb_true_iff in E3. rewrite Z.gtb_ltb in E3. apply Z.ltb_ge in E3.
  cbn.
  repeat split; try assumption.
  eexists _, _. reflexivity.
Qed.

Lemma callback_success_accounts_witness :
  let profit := 2100000 - (1000000 + 500) in
  true = true /\
  3 = POOL im0 /\ 5 = 5 /\ entered st0 = false /\
  900 <= p_deadline params0 /\
  cb_collateralBefore calls0 < cb_collateralAfter calls0 /\
  1000000 + 500 <= fin_balanceOf (cb_finalize calls0) /\
  (1000000 * MIN_PROFIT_BPS) / 10000 <= profit /\
  totalLiquidationsExecuted (mkStorage 1099500 1 7 false 7 false)
    = totalLiquidationsExecuted st0 + 1 /\
  totalProfitGenerated (mkStorage 1099500 1 7 false 7 false)
    = totalProfitGenerated st0 + profit /\
  entered (mkStorage 1099500 1 7 false 7 false) = false /\
  paused (mkStorage 1099500 1 7 false 7 false) = paused st0 /\
  owner (mkStorage 1099500 1 7 false 7 false) = owner st0 /\
  lastExecutor (mkStorage 1099500 1 7 false 7 false) = lastExecutor st0 /\
  exists swapped executor,
    [SwapExecuted 6 1 1100000 1100000 0; LiquidationExecuted 7 2 1099500 1 0 0]
    = swapped ++ [LiquidationExecuted executor (p_targetUser params0) profit 1 0 0].
Proof.
  apply (callback_success_accounts im0 5 st0 (mkStorage 1099500 1 7 false 7 false)
           3 9 900 calls0 1 1000000 500 5 params0
           [SwapExecuted 6 1 1100000 1100000 0; LiquidationExecuted 7 2 1099500 1 0 0]
           true).
  reflexivity.
Defined.

(** X4: with the guards of the callback passed, a liquidation the pool
    rejects and a liquidation that seizes nothing both end in
    [FlashLoanFailed]; a collateral balance that went down ends in an
    arithmetic panic.  None of the three consults the router or the final
    balance. *)
Theorem callback_liquidation_failures (im : Immutables) (this : address) (st : Storage)
    (tx_origin : address) (block_timestamp : Z) (ext : CallbackCalls)
    (asset : address) (amount premium : Z) (params : Params) :
  entered st = false ->
  block_timestamp <= p_deadline params ->
  cb_increaseAllowance ext = true ->
  let outcome := executeOperation im this st (POOL im) tx_origin block_timestamp ext
                   asset amount premium this params in
  (cb_liquidationCall ext = false -> outcome = Aborted (Revert FlashLoanFailed)) /\
  (cb_liquidationCall ext = true -> cb_collateralAfter ext = cb_collateralBefore ext ->
     outcome = Aborted (Revert FlashLoanFailed)) /\
  (cb_liquidationCall ext = true -> cb_collateralAfter ext < cb_collateralBefore ext ->
     outcome = Aborted PanicUnderflow).
Proof.
  intros Hentered Hdeadline Hallow outcome. subst outcome.
  unfold executeOperation, _processLiquidation. rewrite Hentered, !Z.eqb_refl. cbn [negb].
  rewrite Z.gtb_ltb, (proj2 (Z.ltb_ge _ _) Hdeadline), Hallow. cbn [negb].
  split; [| split].
  - intros ->. reflexivity.
  - intros -> Hsame. unfold _handleLiquidationSuccess. rewrite Hsame.
    unfold checked_sub. rewrite Z.leb_refl. cbn [bind].
    rewrite Z.sub_diag. reflexivity.
  - intros -> Hless. unfold _handleLiquidationSuccess.
    unfold checked_sub. destruct (Z.leb_spec (cb_collateralBefore ext) (cb_collateralAfter ext));
      [lia | reflexivity].
Qed.

Lemma callback_liquidation_failures_witness :
  executeOperation im0 5 st0 (POOL im0) 9 900
    (mkCallbackCalls 0 true false 0 (cb_swap calls0) (cb_finalize calls0))
    1 1000000 500 5 params0
  = Aborted (Revert FlashLoanFailed).
Proof.
  refine (proj1 (callback_liquidation_failures im0 5 st0 9 900
           (mkCallbackCalls 0 true false 0 (cb_swap calls0) (cb_finalize calls0))
           1 1000000 500 params0 _ _ _) _); vm_compute; congruence.
Defined.

(** X5: when the collateral asset is the debt asset nothing is swapped: the
    outcome of the callback is the same whatever the router would answer,
    and no [SwapExecuted] event is emitted. *)
Theorem callback_same_asset_skips_swap (im : Immutables) (this : address) (st : Storage)
    (msg_sender tx_origin : address) (block_timestamp : Z)
    (before after : Z) (allowance liquidation : bool) (router router' : SwapCalls)
    (final : FinalizeCalls) (asset : address) (amount premium : Z)
    (initiator : address) (params : Params) :
  p_collateralAsset params = p_debtAsset params ->
  executeOperation im this st msg_sender tx_origin block_timestamp
    (mkCallbackCalls before allowance liquidation after router final)
    asset amount premium initiator params
  = executeOperation im this st msg_sender tx_origin block_timestamp
      (mkCallbackCalls before allowance liquidation after router' final)
      asset amount premium initiator params /\
  forall st' events success,
    executeOperation im this st msg_sender tx_origin block_timestamp
      (mkCallbackCalls before allowance liquidation after router final)
      asset amount premium initiator params = Ok (st', events, success) ->
    exists executor profit,
      events = [LiquidationExecuted executor (p_targetUser params) profit asset 0 0].
Proof.
  intros Hsame.
  assert (Hstep : forall r,
    _handleLiquidationSuccess im (withEntered st true) tx_origin block_timestamp
      (mkCallbackCalls before allowance liquidation after r final) asset amount premium
      (p_collateralAsset params) (p_debtAsset params) before
      (p_maxSlippageBps params) (p_deadline params) (p_targetUser params)
    = (collateralReceived <- checked_sub after before ;;
       require negb (collateralReceived =? 0) else Revert FlashLoanFailed ;;
       settlement <- _finalizeLiquidation (withEntered st true) tx_origin final asset
                       amount premium (p_targetUser params) ;;
       let '(st', events, success) := settlement in
       Ok (st', events, success))).
  { intros r. unfold _handleLiquidationSuccess. cbn [cb_collateralAfter cb_swap cb_finalize].
    rewrite Hsame, Z.eqb_refl. cbn [negb andb bind]. reflexivity. }
  split.
  - unfold executeOperation, _processLiquidation.
    cbn [cb_collateralBefore cb_increaseAllowance cb_liquidationCall].
    rewrite !Hstep. reflexivity.
  - intros st' events success. unfold executeOperation, _processLiquidation.
    cbn [cb_collateralBefore cb_increaseAllowance cb_liquidationCall].
    rewrite Hstep. clear Hstep. intros H. repeat back H.
    destruct a as [[st1 events1] success1]. injection H as <- <- <-.
    repeat back E2.
    match goal with
    | F : _finalizeLiquidation _ _ _ _ _ _ _ = Ok _ |- _ =>
      apply finalize_inv in F as (_ & _ & ->)
    end.
    cbn in E2. injection E2 as <- <- <-.
    eexists _, _. reflexivity.
Qed.

Lemma callback_same_asset_skips_swap_witness :
  executeOperation im0 5 st0 3 9 900
    (mkCallbackCalls 0 true true 1100000 (cb_swap calls0) (cb_finalize calls0))
    1 1000000 500 5 (mkParams 2 1 1 150 1000)
  = executeOperation im0 5 st0 3 9 900
      (mkCallbackCalls 0 true true 1100000
         (mkSwapCalls (fun _ _ => None) 0 false (fun _ _ _ _ => None) false)
         (cb_finalize calls0))
      1 1000000 500 5 (mkParams 2 1 1 150 1000).
Proof.
  apply (callback_same_asset_skips_swap im0 5 st0 3 9 900 0 1100000 true true
           (cb_swap calls0)
           (mkSwapCalls (fun _ _ => None) 0 false (fun _ _ _ _ => None) false)
           (cb_finalize calls0) 1 1000000 500 5 (mkParams 2 1 1 150 1000)).
  reflexivity.
Defined.

(** ** The swap step *)

(** The path always leads from the input token to the output token, with
    WETH as the only possible intermediate. *)
Lemma buildSwapPath_ends (im : Immutables) (tokenIn tokenOut : address) :
  (_buildSwapPath im tokenIn tokenOut = [tokenIn; tokenOut] \/
   _buildSwapPath im tokenIn tokenOut = [tokenIn; WETH im; tokenOut]) /\
  List.hd 0 (_buildSwapPath im tokenIn tokenOut) = tokenIn /\
  List.last (_buildSwapPath im tokenIn tokenOut) 0 = tokenOut.
Proof.
  unfold _buildSwapPath. destruct (_ || _); cbn; auto.
Qed.

(** What the checks passed on the way to a result say. *)
Ltac settle :=
  repeat match goal with
  | H : checked_add _ _ = Ok _ |- _ => apply checked_add_inv in H as [? ?]
  | H : checked_sub _ _ = Ok _ |- _ => apply checked_sub_inv in H as [? ?]
  | H : checked_mul _ _ = Ok _ |- _ => apply checked_mul_inv in H as [? ?]
  | H : checked_div _ _ = Ok _ |- _ => apply checked_div_inv in H as [? ?]
  | H : negb _ = true |- _ => apply negb_true_iff in H
  | H : (_ <? _) = false |- _ => apply Z.ltb_ge in H
  | H : (_ =? _) = false |- _ => apply Z.eqb_neq in H
  end.

Lemma minAmountOut_inv (expectedOut maxSlippageBps floor : Z) :
  minAmountOut expectedOut maxSlippageBps = Ok floor ->
  maxSlippageBps <= 10000 /\
  floor = expectedOut * (10000 - maxSlippageBps) / 10000.
Proof.
  unfold minAmountOut. intros H. repeat back H. settle. subst. auto.
Qed.

(** X6: a swap that delivers more than the router quoted does not go through:
    with every earlier step passed, the computation of the slippage for
    the [SwapExecuted] event underflows and the step ends in a panic. *)
Theorem swap_above_quote_panics (im : Immutables) (block_timestamp : Z) (ext : SwapCalls)
    (tokenIn tokenOut : address) (amountIn maxSlippageBps deadline : Z)
    (amounts : list Z) (floor balanceAfter : Z) :
  block_timestamp <= deadline ->
  sw_getAmountsOut ext amountIn (_buildSwapPath im tokenIn tokenOut) = Some amounts ->
  (2 <= length amounts)%nat ->
  0 < List.last amounts 0 ->
  0 <= maxSlippageBps ->
  minAmountOut (List.last amounts 0) maxSlippageBps = Ok floor ->
  sw_increaseAllowance ext = true ->
  sw_swap ext amountIn floor (_buildSwapPath im tokenIn tokenOut) deadline
    = Some balanceAfter ->
  List.last amounts 0 < balanceAfter - sw_balanceBefore ext ->
  _executeSwap im block_timestamp ext tokenIn tokenOut amountIn maxSlippageBps deadline
  = Aborted PanicUnderflow.
Proof.
  intros Hdeadline Hquote Hlen Hpos Hslip Hfloor Hallow Hswap Hmore.
  unfold _executeSwap.
  rewrite (proj2 (Z.ltb_ge _ _) Hdeadline). cbn [negb]. rewrite Hquote.
  rewrite (proj2 (Z.ltb_ge (Z.of_nat (length amounts)) 2)) by lia. cbn [negb].
  rewrite (proj2 (Z.eqb_neq (List.last amounts 0) 0)) by lia. cbn [negb].
  rewrite Hfloor. cbn [bind]. rewrite Hallow, Hswap.
  assert (Hfloor_le : floor <= List.last amounts 0).
  { apply minAmountOut_inv in Hfloor as [Hs ->].
    apply Z.div_le_upper_bound; nia. }
  unfold checked_sub at 1.
  destruct (Z.leb_spec (sw_balanceBefore ext) balanceAfter); [| lia]. cbn [bind].
  rewrite (proj2 (Z.ltb_ge _ _)) by lia. cbn [negb].
  unfold checked_sub.
  destruct (Z.leb_spec (balanceAfter - sw_balanceBefore ext) (List.last amounts 0));
    [lia | reflexivity].
Qed.

Lemma swap_above_quote_panics_witness :
  _executeSwap im0 900
    (mkSwapCalls (fun amountIn _ => Some [amountIn; 1100000]) 1000000 true
       (fun _ _ _ _ => Some 2100001) true)
    6 1 1100000 150 1000
  = Aborted PanicUnderflow.
Proof.
  apply (swap_above_quote_panics im0 900
           (mkSwapCalls (fun amountIn _ => Some [amountIn; 1100000]) 1000000 true
              (fun _ _ _ _ => Some 2100001) true)
           6 1 1100000 150 1000 [1100000; 1100000] 1083500 2100001);
    first [reflexivity | cbn; lia].
Defined.

(** X7: a swap that goes through emits exactly one event; the amount received
    is between the floor and the quote, and for a quote of at least 10000
    units the slippage recorded in the event does not exceed the slippage
    allowed. *)
Theorem swap_success_within_slippage (im : Immutables) (block_timestamp : Z)
    (ext : SwapCalls) (tokenIn tokenOut : address)
    (amountIn maxSlippageBps deadline : Z) (events : list Event) :
  0 <= maxSlippageBps ->
  _executeSwap im block_timestamp ext tokenIn tokenOut amountIn maxSlippageBps deadline
    = Ok events ->
  exists amounts amountOut slippageBps,
    sw_getAmountsOut ext amountIn (_buildSwapPath im tokenIn tokenOut) = Some amounts /\
    events = [SwapExecuted tokenIn tokenOut amountIn amountOut slippageBps] /\
    (List.last amounts 0 * (10000 - maxSlippageBps)) / 10000 <= amountOut /\
    amountOut <= List.last amounts 0 /\
    0 <= slippageBps /\
    (10000 <= List.last amounts 0 -> slippageBps <= maxSlippageBps).
Proof.
  intros Hslip H. unfold _executeSwap in H. repeat back H.
  injection H as <-.
  match goal with
  | F : minAmountOut _ _ = Ok _ |- _ => apply minAmountOut_inv in F as [Hs ->]
  end.
  settle. subst.
  match goal with
  | F : sw_getAmountsOut _ _ _ = Some ?l |- _ => rename l into amounts
  end.
  match goal with
  | F : sw_swap _ _ _ _ _ = Some ?z |- _ => rename z into balanceAfter
  end.
  set (e := List.last amounts 0) in *.
  set (out := balanceAfter - sw_balanceBefore ext) in *.
  assert (He : 0 < e).
  { destruct (Z.lt_trichotomy e 0) as [Hneg | [Hz | Hp]]; [| lia | exact Hp].
    exfalso.
    assert (e * (10000 - maxSlippageBps) / 10000 <= 0)
      by (apply Z.div_le_upper_bound; nia).
    assert (e <= e * (10000 - maxSlippageBps) / 10000); [| lia].
    lia. }
  exists amounts, out, ((e - out) * 10000 / e).
  repeat split; try assumption.
  - apply Z.div_pos; nia.
  - intros Hbig.
    pose proof (Z.div_mod (e * (10000 - maxSlippageBps)) 10000 ltac:(lia)) as Hdm.
    pose proof (Z.mod_pos_bound (e * (10000 - maxSlippageBps)) 10000 ltac:(lia)) as Hmod.
    assert ((e - out) * 10000 / e < maxSlippageBps + 1); [| lia].
    apply Z.div_lt_upper_bound; nia.
Qed.

Lemma swap_success_within_slippage_witness :
  exists amounts amountOut slippageBps,
    sw_getAmountsOut (cb_swap calls0) 1100000 (_buildSwapPath im0 6 1) = Some amounts /\
    [SwapExecuted 6 1 1100000 1100000 0]
    = [SwapExecuted 6 1 1100000 amountOut slippageBps] /\
    (List.last amounts 0 * (10000 - 150)) / 10000 <= amountOut /\
    amountOut <= List.last amounts 0 /\
    0 <= slippageBps /\
    (10000 <= List.last amounts 0 -> slippageBps <= 150).
Proof.
  apply (swap_success_within_slippage im0 900 (cb_swap calls0) 6 1 1100000 150 1000
           [SwapExecuted 6 1 1100000 1100000 0]).
  - lia.
  - reflexivity.
Defined.

End CallbackProofs.

(* ===================================================================== *)
(** * Owner functions of the contract *)
(* ===================================================================== *)

Module OwnerProofs.

Import SimpleLiquidator Samples.

Lemma setEach_other (tokens : list address) (allowed : list bool)
    (allowedReserves : gmap Z bool) (token : address) :
  token ∉ tokens ->
  setEach tokens allowed allowedReserves !! token = allowedReserves !! token.
Proof.
  revert allowed allowedReserves.
  induction tokens as [| t tokens IH]; intros allowed m Hnot; [reflexivity |].
  destruct allowed as [| flag allowed]; [reflexivity |]. cbn [setEach].
  apply not_elem_of_cons in Hnot as [Hne Hnot].
  rewrite IH by assumption. apply lookup_insert_ne. congruence.
Qed.

Lemma setEach_last (tokens : list address) (allowed : list bool)
    (allowedReserves : gmap Z bool) (i : nat) (token : address) (flag : bool) :
  tokens !! i = Some token ->
  allowed !! i = Some flag ->
  (forall j, (i < j)%nat -> tokens !! j = Some token -> False) ->
  setEach tokens allowed allowedReserves !! token = Some flag.
Proof.
  revert allowed allowedReserves i.
  induction tokens as [| t tokens IH]; intros allowed m i Ht Ha Hlast; [discriminate |].
  destruct allowed as [| f allowed]; [destruct i; discriminate |].
  cbn [setEach]. destruct i as [| i].
  - cbn in Ht, Ha. injection Ht as ->. injection Ha as ->.
    rewrite setEach_other.
    + apply lookup_insert_eq.
    + intros Hin. apply list_elem_of_lookup in Hin as [j Hj].
      apply (Hlast (S j)); [lia | exact Hj].
  - cbn in Ht, Ha. apply (IH allowed _ i); [assumption | assumption |].
    intros j Hj Hlook. apply (Hlast (S j)); [lia | exact Hlook].
Qed.

(** X8: setting several reserves at once goes through for the owner exactly
    when the two arrays have the same length; afterwards a token of the
    array reads the flag of its last occurrence, and every other token
    reads what it read before. *)
Theorem setMultiple_last_write_wins (st : Storage) (msg_sender : address)
    (allowedReserves allowedReserves' : gmap Z bool)
    (tokens : list address) (allowed : list bool) :
  setMultipleAllowedReserves st msg_sender allowedReserves tokens allowed
    = inr allowedReserves' ->
  msg_sender = owner st /\
  length tokens = length allowed /\
  (forall i token flag,
      tokens !! i = Some token -> allowed !! i = Some flag ->
      (forall j, (i < j)%nat -> tokens !! j = Some token -> False) ->
      isTokenAllowed allowedReserves' token = flag) /\
  (forall token,
      token ∉ tokens ->
      isTokenAllowed allowedReserves' token = isTokenAllowed allowedReserves token).
Proof.
  unfold setMultipleAllowedReserves. intros H.
  destruct (Z.eqb_spec msg_sender (owner st)) as [Ho | Ho]; [| discriminate H].
  cbn [negb] in H.
  destruct (Nat.eqb_spec (length tokens) (length allowed)) as [Hlen | Hlen];
    [| discriminate H].
  cbn [negb] in H. injection H as <-.
  repeat split; try assumption.
  - intros i token flag Ht Ha Hlast. unfold isTokenAllowed.
    rewrite (setEach_last tokens allowed allowedReserves i token flag); auto.
  - intros token Hnot. unfold isTokenAllowed. rewrite setEach_other; auto.
Qed.

Lemma setMultiple_last_write_wins_witness :
  7 = owner st0 /\
  length [1; 2; 1] = length [true; false; false] /\
  (forall i token flag,
      [1; 2; 1] !! i = Some token -> [true; false; false] !! i = Some flag ->
      (forall j, (i < j)%nat -> [1; 2; 1] !! j = Some token -> False) ->
      isTokenAllowed (setEach [1; 2; 1] [true; false; false] ∅) token = flag) /\
  (forall token,
      token ∉ [1; 2; 1] ->
      isTokenAllowed (setEach [1; 2; 1] [true; false; false] ∅) token
      = isTokenAllowed ∅ token).
Proof.
  apply (setMultiple_last_write_wins st0 7 ∅ _ [1; 2; 1] [true; false; false]).
  reflexivity.
Defined.

(** Arrays of different lengths are refused before any entry is written. *)
Lemma setMultiple_length_mismatch (st : Storage) (allowedReserves : gmap Z bool)
    (tokens : list address) (allowed : list bool) :
  length tokens <> length allowed ->
  setMultipleAllowedReserves st (owner st) allowedReserves tokens allowed
  = inl ArraysLengthMismatch.
Proof.
  intros Hlen. unfold setMultipleAllowedReserves.
  rewrite Z.eqb_refl. cbn [negb].
  destruct (Nat.eqb_spec (length tokens) (length allowed)); [contradiction | reflexivity].
Qed.

(** X9: a pause that went through was made by the owner on a contract that
    was not paused.  From then on every submission is refused, a second
    pause is refused, the counters read as before, and the owner's
    unpause gives back the storage the contract had before the pause. *)
Theorem pause_stops_submissions (st st' : Storage) (msg_sender : address) :
  pause st msg_sender = inr st' ->
  msg_sender = owner st /\
  paused st = false /\
  (forall sender block_timestamp targetUser collateralAsset debtAsset
          debtAmount maxSlippageBps deadline,
      executeLiquidation st' sender block_timestamp targetUser collateralAsset
        debtAsset debtAmount maxSlippageBps deadline
      = Aborted (if entered st then ReentrantCall else EnforcedPause)) /\
  pause st' msg_sender = inl OwnerEnforcedPause /\
  getStats st' = (totalProfitGenerated st, totalLiquidationsExecuted st, true) /\
  unpause st' msg_sender = inr st.
Proof.
  unfold pause. intros H.
  destruct (Z.eqb_spec msg_sender (owner st)) as [Ho | Ho]; [| discriminate H].
  cbn [negb] in H. destruct (paused st) eqn:Hp; [discriminate H |].
  injection H as <-. subst msg_sender.
  repeat split.
  - intros. unfold executeLiquidation. cbn. destruct (entered st); reflexivity.
  - unfold pause. cbn. rewrite Z.eqb_refl. reflexivity.
  - unfold unpause. cbn. rewrite Z.eqb_refl. cbn.
    destruct st; cbn in *. subst. reflexivity.
Qed.

Lemma pause_stops_submissions_witness :
  7 = owner st0 /\
  paused st0 = false /\
  (forall sender block_timestamp targetUser collateralAsset debtAsset
          debtAmount maxSlippageBps deadline,
      executeLiquidation (withPaused st0 true) sender block_timestamp targetUser
        collateralAsset debtAsset debtAmount maxSlippageBps deadline
      = Aborted (if entered st0 then ReentrantCall else EnforcedPause)) /\
  pause (withPaused st0 true) 7 = inl OwnerEnforcedPause /\
  getStats (withPaused st0 true)
  = (totalProfitGenerated st0, totalLiquidationsExecuted st0, true) /\
  unpause (withPaused st0 true) 7 = inr st0.
Proof.
  apply (pause_stops_submissions st0 (withPaused st0 true) 7). reflexivity.
Defined.

(** X10: no entry point that changes the contract's state goes through for a
    caller who is not the owner: a submission is refused by one of its
    three modifiers, and the four owner functions by [onlyOwner]. *)
Theorem non_owner_is_refused (st : Storage) (msg_sender : address) :
  msg_sender <> owner st ->
  (forall block_timestamp targetUser collateralAsset debtAsset
          debtAmount maxSlippageBps deadline,
      exists a,
        executeLiquidation st msg_sender block_timestamp targetUser collateralAsset
          debtAsset debtAmount maxSlippageBps deadline = Aborted a /\
        (a = ReentrantCall \/ a = EnforcedPause \/ a = NotOwner)) /\
  pause st msg_sender = inl OwnerNotOwner /\
  unpause st msg_sender = inl OwnerNotOwner /\
  (forall allowedReserves token allowed,
      setAllowedReserve st msg_sender allowedReserves token allowed
      = inl OwnerNotOwner) /\
  (forall allowedReserves tokens allowed,
      setMultipleAllowedReserves st msg_sender allowedReserves tokens allowed
      = inl OwnerNotOwner).
Proof.
  intros Hne. apply Z.eqb_neq in Hne.
  repeat split.
  - intros. unfold executeLiquidation.
    destruct (entered st); cbn; [eauto |].
    destruct (paused st); cbn; [eauto |].
    rewrite Hne. eauto 6.
  - unfold pause. rewrite Hne. reflexivity.
  - unfold unpause. rewrite Hne. reflexivity.
  - intros. unfold setAllowedReserve. rewrite Hne. reflexivity.
  - intros. unfold setMultipleAllowedReserves. rewrite Hne. reflexivity.
Qed.

Lemma non_owner_is_refused_witness :
  (forall block_timestamp targetUser collateralAsset debtAsset
          debtAmount maxSlippageBps deadline,
      exists a,
        executeLiquidation st0 8 block_timestamp targetUser collateralAsset
          debtAsset debtAmount maxSlippageBps deadline = Aborted a /\
        (a = ReentrantCall \/ a = EnforcedPause \/ a = NotOwner)) /\
  pause st0 8 = inl OwnerNotOwner /\
  unpause st0 8 = inl OwnerNotOwner /\
  (forall allowedReserves token allowed,
      setAllowedReserve st0 8 allowedReserves token allowed = inl OwnerNotOwner) /\
  (forall allowedReserves tokens allowed,
      setMultipleAllowedReserves st0 8 allowedReserves tokens allowed
      = inl OwnerNotOwner).
Proof.
  apply (non_owner_is_refused st0 8). vm_compute. congruence.
Defined.

End OwnerProofs.

(* ===================================================================== *)
(** * Further properties of the opportunity scan *)
(* ===================================================================== *)

Module PositionProofs.

Import JsNumber JsNumberProofs AaveService Statements Samples.
Local Open Scope Q_scope.

(** ** The reported assets *)

Lemma largestStep_splits (rs : list AaveUserReserve) (lc ld : Largest) :
  fold_left largestStep rs (lc, ld)
  = (fold_left (pick countsAsCollateral collateralAmountOf collateralValueETH) rs lc,
     fold_left (pick hasDebt debtAmountOf debtValueETH) rs ld).
Proof.
  revert lc ld. induction rs as [| r rs IH]; intros lc ld; [reflexivity |].
  cbn [fold_left]. rewrite <- IH. reflexivity.
Qed.

Section Largest.

Variable counts : AaveUserReserve -> bool.
Variables amount value : AaveUserReserve -> num.

Lemma largestAmong_value (seen : list AaveUserReserve) (l : Largest) :
  largestAmong counts amount value seen l ->
  exists v, lg_valueETH l = Fin v /\ 0 <= v.
Proof.
  intros [_ [-> | (r & _ & _ & Hpos & ->)]].
  - exists 0. split; [reflexivity | lra].
  - apply gt_fin_inv in Hpos as (x & y & Hx & Hy & Hlt).
    injection Hy as <-. exists x. cbn. split; [exact Hx | lra].
Qed.

Lemma pick_largestAmong (seen : list AaveUserReserve) (l : Largest) (r : AaveUserReserve) :
  largestAmong counts amount value seen l ->
  largestAmong counts amount value (seen ++ [r]) (pick counts amount value l r).
Proof.
  intros Hinv.
  destruct (largestAmong_value seen l Hinv) as (v & Hv & Hv0).
  destruct Hinv as [Hmax Horigin].
  unfold pick.
  destruct (counts r) eqn:Hcounts; [destruct (gt (value r) (lg_valueETH l)) eqn:Hgt |].
  - rewrite Hv in Hgt. apply gt_fin_inv in Hgt as (x & y & Hx & Hy & Hlt).
    injection Hy as <-.
    split.
    + cbn [lg_valueETH]. intros r' Hin Hc. rewrite Hx.
      apply in_app_or in Hin as [Hin | [<- | []]].
      * specialize (Hmax r' Hin Hc). rewrite Hv in Hmax.
        destruct (value r') as [y |]; [| reflexivity].
        apply gt_false_fin in Hmax. apply gt_false_fin. lra.
      * rewrite Hx. apply gt_false_fin. lra.
    + right. exists r. repeat split.
      * apply in_or_app. right. left. reflexivity.
      * exact Hcounts.
      * rewrite Hx. apply gt_ltq. cbn. lra.
  - split.
    + intros r' Hin Hc. apply in_app_or in Hin as [Hin | [<- | []]]; auto.
    + destruct Horigin as [-> | (r0 & Hin & Hc & Hpos & ->)]; [left; reflexivity |].
      right. exists r0. repeat split; auto. apply in_or_app. left. exact Hin.
  - split.
    + intros r' Hin Hc. apply in_app_or in Hin as [Hin | [<- | []]]; auto. congruence.
    + destruct Horigin as [-> | (r0 & Hin & Hc & Hpos & ->)]; [left; reflexivity |].
      right. exists r0. repeat split; auto. apply in_or_app. left. exact Hin.
Qed.

Lemma fold_largestAmong (rs seen : list AaveUserReserve) (l : Largest) :
  largestAmong counts amount value seen l ->
  largestAmong counts amount value (seen ++ rs)
    (fold_left (pick counts amount value) rs l).
Proof.
  revert seen l. induction rs as [| r rs IH]; intros seen l Hinv; cbn [fold_left].
  - rewrite app_nil_r. exact Hinv.
  - replace (seen ++ r :: rs) with ((seen ++ [r]) ++ rs)
      by (rewrite <- app_assoc; reflexivity).
    apply IH. apply pick_largestAmong. exact Hinv.
Qed.

Lemma largest_of_all (rs : list AaveUserReserve) :
  largestAmong counts amount value rs (fold_left (pick counts amount value) rs nothing).
Proof.
  apply (fold_largestAmong rs [] nothing). split; [intros r [] | left; reflexivity].
Qed.

(** The running maximum is still zero exactly when no counted entry has a
    positive value. *)
Lemma largest_is_zero (rs : list AaveUserReserve) :
  eq (lg_valueETH (fold_left (pick counts amount value) rs nothing)) zero = true <->
  (forall r, In r rs -> counts r = true -> gt (value r) zero = false).
Proof.
  destruct (largest_of_all rs) as [Hmax Horigin].
  split.
  - intros Hzero r Hin Hc.
    destruct Horigin as [Hnone | (r0 & _ & _ & Hpos & Hl)].
    + specialize (Hmax r Hin Hc). rewrite Hnone in Hmax. exact Hmax.
    + rewrite Hl in Hzero. cbn [lg_valueETH] in Hzero.
      apply eq_zero_not_gt in Hzero. unfold zero in Hpos. congruence.
  - intros Hnone.
    destruct Horigin as [-> | (r0 & Hin & Hc & Hpos & _)]; [reflexivity |].
    rewrite (Hnone r0 Hin Hc) in Hpos. discriminate.
Qed.

End Largest.



(** X12: no position is made exactly when no counted collateral of the user
    has a positive value, or no debt has. *)
Theorem no_position_iff (ethPrice : num) (healthData : HealthFactorData)
    (executionMin executionMax : num) :
  convertToLiquidationPosition ethPrice healthData executionMin executionMax = None <->
  (forall r, In r (hf_reserves healthData) -> countsAsCollateral r = true ->
             gt (collateralValueETH r) zero = false) \/
  (forall r, In r (hf_reserves healthData) -> hasDebt r = true ->
             gt (debtValueETH r) zero = false).
Proof.
  unfold convertToLiquidationPosition.
  rewrite largestStep_splits. fold nothing.
  rewrite <- (largest_is_zero countsAsCollateral collateralAmountOf collateralValueETH).
  rewrite <- (largest_is_zero hasDebt debtAmountOf debtValueETH).
  rewrite <- orb_true_iff.
  destruct (eq _ zero || eq _ zero); split; intros H; congruence.
Qed.

End PositionProofs.

(* ===================================================================== *)
(** * The users of a scan *)
(* ===================================================================== *)

Module UsersProofs.

Import JsNumber JsNumberProofs AaveService Statements Samples.

(** ** At most [maxUsers] users are processed *)

Section Bound.

Variables (sg : Subgraph).
Variables (ethPrice monitoringMin monitoringMax executionMin executionMax : num).
Variable (maxUsers : nat).

Lemma processUsers_bounded (users : list AaveUser) (processed : nat)
    (acc : list LiquidationPosition) :
  (processed <= maxUsers)%nat ->
  (length acc <= processed)%nat ->
  (fst (processUsers ethPrice monitoringMin monitoringMax executionMin executionMax
          maxUsers users processed acc) <= maxUsers)%nat /\
  (length (snd (processUsers ethPrice monitoringMin monitoringMax executionMin
                  executionMax maxUsers users processed acc))
   <= fst (processUsers ethPrice monitoringMin monitoringMax executionMin executionMax
             maxUsers users processed acc))%nat.
Proof.
  revert processed acc.
  induction users as [| u rest IH]; intros processed acc Hp Hacc; cbn [processUsers].
  - cbn [fst snd]. split; assumption.
  - destruct (Nat.leb_spec maxUsers processed) as [Hle | Hlt];
      [cbn [fst snd]; split; assumption |].
    apply IH; [lia |].
    destruct (inMonitoringRange _ _ _); [| lia].
    destruct (convertToLiquidationPosition _ _ _ _); [| lia].
    rewrite length_app. cbn [length]. lia.
Qed.

Lemma scanLoop_bounded (fuel processed skip : nat)
    (acc positions : list LiquidationPosition) :
  (processed <= maxUsers)%nat ->
  (length acc <= processed)%nat ->
  scanLoop fuel sg ethPrice monitoringMin monitoringMax executionMin executionMax
    maxUsers processed skip acc = Some (Completed positions) ->
  (length positions <= maxUsers)%nat.
Proof.
  revert processed skip acc.
  induction fuel as [| fuel IH]; intros processed skip acc Hp Hacc; cbn [scanLoop];
    [discriminate |].
  destruct (processed <? maxUsers)%nat; [| intros [= <-]; lia].
  destruct (usersWithDebt sg _ skip) as [vs |]; [| discriminate].
  destruct (usersWithStableDebt sg _ skip) as [ss |]; [| discriminate].
  destruct (deduplicate (vs ++ ss)) as [| u rest]; [intros [= <-]; lia |].
  pose proof (processUsers_bounded (u :: rest) processed acc Hp Hacc) as [Hp' Hacc'].
  destruct (processUsers _ _ _ _ _ _ (u :: rest) processed acc) as [processed' acc'].
  cbn [fst snd] in Hp', Hacc'. apply IH; assumption.
Qed.

End Bound.

(** X13: the scan returns, and never more than [maxUsers] positions; with
    [maxUsers = 0] it makes no request at all, so it returns the empty
    list without an error even when the subgraph does not answer. *)
Theorem scan_reports_at_most_maxUsers (sg : Subgraph)
    (ethPrice monitoringMin monitoringMax executionMin executionMax : num)
    (maxUsers : nat) :
  exists positions console,
    getLiquidationOpportunities sg ethPrice monitoringMin monitoringMax
      executionMin executionMax maxUsers = Some (positions, console) /\
    (length positions <= maxUsers)%nat /\
    (maxUsers = 0%nat -> console = []).
Proof.
  unfold getLiquidationOpportunities.
  destruct (ScanProofs.scanLoop_terminates sg ethPrice monitoringMin monitoringMax
              executionMin executionMax maxUsers (S maxUsers) 0 0 [])
    as [outcome Hloop]; [lia |].
  cbv beta in Hloop. rewrite Hloop.
  destruct outcome as [collected |].
  - exists (sortPositions collected), []. split; [reflexivity |]. split; [| reflexivity].
    rewrite (Permutation_length (ScanProofs.sortPositions_perm collected)).
    eapply scanLoop_bounded; [| | exact Hloop]; cbn; lia.
  - exists [], [ERROR_FETCHING]. split; [reflexivity |]. split; [cbn; lia |].
    intros ->. cbn in Hloop. discriminate.
Qed.

(** ** Users returned by both queries *)

Lemma mapSet_keys (k : string) (v : AaveUser) (m : list (string * AaveUser)) :
  map fst (mapSet k v m) = map fst m \/
  (~ In k (map fst m) /\ map fst (mapSet k v m) = map fst m ++ [k]).
Proof.
  induction m as [| [k' v'] m IH]; cbn [mapSet map fst app].
  - right. split; [intros [] | reflexivity].
  - destruct (String.eqb_spec k' k) as [-> | Hne]; cbn [map fst]; [left; reflexivity |].
    destruct IH as [-> | [Hnot ->]]; [left; reflexivity |].
    right. split; [| reflexivity].
    cbn. intros [? | ?]; [congruence | contradiction].
Qed.

Lemma mapSet_NoDup (k : string) (v : AaveUser) (m : list (string * AaveUser)) :
  NoDup (map fst m) -> NoDup (map fst (mapSet k v m)).
Proof.
  intros Hm. destruct (mapSet_keys k v m) as [-> | [Hnot ->]]; [exact Hm |].
  apply NoDup_app; repeat split.
  - exact Hm.
  - intros x Hx Hk. apply list_elem_of_In in Hx. apply list_elem_of_In in Hk.
    destruct Hk as [<- | []]. contradiction.
  - repeat constructor. intros H. apply list_elem_of_In in H. destruct H.
Qed.

Lemma mapSet_In (k : string) (v : AaveUser) (m : list (string * AaveUser))
    (k' : string) (v' : AaveUser) :
  NoDup (map fst m) ->
  In (k', v') (mapSet k v m) <->
  (k' = k /\ v' = v) \/ (k' <> k /\ In (k', v') m).
Proof.
  induction m as [| [k0 v0] m IH]; intros Hm; cbn [mapSet].
  - cbn. split.
    + intros [[= <- <-] | []]. left. split; reflexivity.
    + intros [[-> ->] | [_ []]]. left. reflexivity.
  - apply NoDup_cons in Hm as [Hk0 Hm]. rewrite list_elem_of_In in Hk0.
    destruct (String.eqb_spec k0 k) as [-> | Hne]; cbn [In].
    + split.
      * intros [[= <- <-] | Hin]; [left; split; reflexivity |].
        right. split; [| right; exact Hin].
        intros ->. apply Hk0. apply (in_map fst) in Hin. exact Hin.
      * intros [[-> ->] | [Hne [[= <- <-] | Hin]]]; [left; reflexivity | | right; exact Hin].
        contradiction.
    + rewrite (IH Hm). split.
      * intros [[= <- <-] | [[-> ->] | [Hk Hin]]].
        -- right. split; [exact Hne | left; reflexivity].
        -- left. split; reflexivity.
        -- right. split; [exact Hk | right; exact Hin].
      * intros [[-> ->] | [Hk [[= <- <-] | Hin]]].
        -- right. left. split; reflexivity.
        -- left. reflexivity.
        -- right. right. split; assumption.
Qed.

Lemma snoc_split (seen before after : list AaveUser) (x u : AaveUser) :
  seen ++ [x] = before ++ u :: after ->
  (after = [] /\ seen = before /\ x = u) \/
  (exists rest, after = rest ++ [x] /\ seen = before ++ u :: rest).
Proof.
  intros H. destruct after as [| a after] using rev_ind.
  - left. apply app_inj_tail in H as [-> ->]. repeat split.
  - clear IHafter. right. exists after.
    change (before ++ u :: after ++ [a]) with (before ++ (u :: after) ++ [a]) in H.
    rewrite app_assoc in H. apply app_inj_tail in H as [-> ->]. split; reflexivity.
Qed.

Lemma dedup_fold (users seen : list AaveUser) (m : list (string * AaveUser)) :
  NoDup (map fst m) ->
  (forall k u, In (k, u) m <->
     k = id u /\ exists before after,
       seen = before ++ u :: after /\ Forall (fun u' => id u' <> id u) after) ->
  NoDup (map fst (fold_left (fun m u => mapSet (id u) u m) users m)) /\
  (forall k u, In (k, u) (fold_left (fun m u => mapSet (id u) u m) users m) <->
     k = id u /\ exists before after,
       seen ++ users = before ++ u :: after /\ Forall (fun u' => id u' <> id u) after).
Proof.
  revert seen m. induction users as [| x users IH]; intros seen m Hm Hin; cbn [fold_left].
  - rewrite app_nil_r. split; assumption.
  - replace (seen ++ x :: users) with ((seen ++ [x]) ++ users)
      by (rewrite <- app_assoc; reflexivity).
    apply IH; [apply mapSet_NoDup; exact Hm |].
    intros k u. rewrite (mapSet_In _ _ _ _ _ Hm). rewrite Hin. split.
    + intros [[-> ->] | [Hk [-> (before & after & -> & Hafter)]]].
      * split; [reflexivity |]. exists seen, []. split; [reflexivity | constructor].
      * split; [reflexivity |]. exists before, (after ++ [x]).
        split; [rewrite <- app_assoc; reflexivity |].
        apply Forall_app. split; [exact Hafter |].
        constructor; [congruence | constructor].
    + intros [-> (before & after & Heq & Hafter)].
      apply snoc_split in Heq as [(-> & -> & ->) | (rest & -> & ->)].
      * left. split; reflexivity.
      * apply Forall_app in Hafter as [Hrest Hx]. inversion Hx; subst.
        right. split; [congruence |]. split; [reflexivity |].
        exists before, rest. split; [reflexivity | exact Hrest].
Qed.

(** X14: the users of one batch have distinct ids, and a user is among them
    exactly when it is the last in the two answers with its id: of a user
    returned twice the later record is the one processed. *)
Theorem deduplicate_keeps_last (users : list AaveUser) :
  NoDup (map id (deduplicate users)) /\
  (forall u, In u (deduplicate users) <->
     exists before after,
       users = before ++ u :: after /\ Forall (fun u' => id u' <> id u) after).
Proof.
  unfold deduplicate.
  destruct (dedup_fold users [] []) as [Hnodup Hin].
  { constructor. }
  { intros k u. cbn. split; [intros [] | intros [_ (before & after & H & _)]].
    destruct before; discriminate. }
  cbn [app] in Hin.
  set (m := fold_left (fun m u => mapSet (id u) u m) users []) in *.
  split.
  - replace (map id (map snd m)) with (map fst m); [exact Hnodup |].
    rewrite List.map_map. apply map_ext_in. intros [k u] Hku.
    apply Hin in Hku as [-> _]. reflexivity.
  - intros u. rewrite in_map_iff. split.
    + intros ([k u'] & <- & Hku). apply Hin in Hku as [_ H]. exact H.
    + intros H. exists (id u, u). split; [reflexivity |]. apply Hin. split; [reflexivity | exact H].
Qed.

(** ** Borrowing capacity *)

(** X15: a user whose health factor is below 1 has debt and no borrowing
    capacity left. *)
Theorem unhealthy_cannot_borrow (user : AaveUser) :
  lt (healthFactor (calculateHealthFactor user)) (Fin 1) = true ->
  gt (totalDebtETH (calculateHealthFactor user)) zero = true /\
  availableBorrowsETH (calculateHealthFactor user) = zero.
Proof.
  unfold calculateHealthFactor. cbn [healthFactor totalDebtETH availableBorrowsETH].
  destruct (gt (sumDebtETH (aggregate (reserves user))) zero) eqn:Hdebt;
    [| intros H; vm_compute in H; discriminate H].
  intros Hlt. split; [reflexivity |].
  apply gt_fin_inv in Hdebt as (d & z & Hd & Hz & Hpos). injection Hz as <-.
  rewrite Hd in *.
  destruct (sumCollateralWithThreshold (aggregate (reserves user))) as [w |];
    [| discriminate Hlt].
  cbn [div] in Hlt. destruct (Qeq_bool d 0) eqn:Hd0; [discriminate Hlt |].
  apply lt_ltq in Hlt. cbn [ltq] in Hlt.
  assert (Hw : (w < d)%Q).
  { assert (Hq : (d * (w / d) == w)%Q) by (apply Qmult_div_r; lra).
    set (q := (w / d)%Q) in *. nra. }
  unfold zero. cbn [sub lift2 max].
  destruct (Qle_bool 0 (w - d)) eqn:Hle; [| reflexivity].
  apply Qle_bool_iff in Hle. lra.
Qed.

Lemma unhealthy_cannot_borrow_witness :
  gt (totalDebtETH (calculateHealthFactor riskier)) zero = true /\
  availableBorrowsETH (calculateHealthFactor riskier) = zero.
Proof.
  apply (unhealthy_cannot_borrow riskier). reflexivity.
Defined.

End UsersProofs.

(* ===================================================================== *)
(** * Reading the position store *)
(* ===================================================================== *)

Module QueryProofs.

Import DatabaseService HealthFactorCalculator Statements Samples.

(** ** The order *)

Lemma insertRow_perm (row : LiquidationPosition) (l : list LiquidationPosition) :
  Permutation (insertRow row l) (row :: l).
Proof.
  induction l as [| r l IH]; cbn [insertRow]; [reflexivity |].
  destruct (Qle_bool _ _); [reflexivity |].
  rewrite IH. apply perm_swap.
Qed.

Lemma orderBy_perm (l : list LiquidationPosition) :
  Permutation (orderByHealthFactor l) l.
Proof.
  induction l as [| r l IH]; cbn [orderByHealthFactor fold_right]; [reflexivity |].
  rewrite insertRow_perm. constructor. exact IH.
Qed.



(** ** The rows selected *)

Lemma selected_spec (chainId : Z) (lo hi : Q) (row : LiquidationPosition) :
  selected chainId lo hi row = true <->
  chain_id (row_position row) = chainId /\
  is_liquidatable (row_position row) = true /\
  (lo <= health_factor (row_position row) <= hi)%Q.
Proof.
  unfold selected. rewrite !andb_true_iff, Z.eqb_eq, !Qle_bool_iff. tauto.
Qed.

Lemma query_In (chainId : Z) (lo hi : Q) (table : gmap Key LiquidationPosition)
    (row : LiquidationPosition) :
  In row (getLiquidatablePositions chainId lo hi table) <->
  (exists k, table !! k = Some row) /\ selected chainId lo hi row = true.
Proof.
  unfold getLiquidatablePositions.
  split.
  - intros Hin.
    apply (Permutation_in _ (orderBy_perm _)) in Hin.
    apply filter_In in Hin as [Hin Hsel]. split; [| exact Hsel].
    apply in_map_iff in Hin as ([k r] & <- & Hkr).
    exists k. apply elem_of_map_to_list. apply list_elem_of_In. exact Hkr.
  - intros [[k Hk] Hsel].
    apply (Permutation_in _ (Permutation_sym (orderBy_perm _))).
    apply filter_In. split; [| exact Hsel].
    apply in_map_iff. exists (k, row). split; [reflexivity |].
    apply list_elem_of_In. apply elem_of_map_to_list. exact Hk.
Qed.

(** ** What the table holds after a sequence of writes *)

Lemma stored_is_last (calls : list Call) (k : Key) (row : LiquidationPosition) :
  Forall (fun call => storable (call_position call)) calls ->
  upsertAllIn keyed calls emptyTable !! k = Some row ->
  exists call,
    lastWrite calls call /\
    keyOf (call_position call) = k /\
    stored (call_position call) = Some (row_position row) /\
    samePosition (row_position row) (call_position call) /\
    last_updated row = call_now call.
Proof.
  revert row. induction calls as [| c calls IH] using rev_ind; intros row Hall Hrow.
  - discriminate Hrow.
  - apply Forall_app in Hall as [Hall Hc]. inversion Hc as [| ? ? Hstorable _]; subst.
    destruct (UpsertProofs.stored_storable _ Hstorable) as (values & Hvalues & Hsame & Hkey).
    rewrite UpsertProofs.upsertAllIn_snoc in Hrow.
    destruct (decide (keyOf (call_position c) = k)) as [Hk | Hk].
    + destruct (UpsertProofs.upsert_stores (call_now c) (call_uuid c) _ _
                  (upsertAllIn keyed calls emptyTable) Hvalues)
        as (row' & Hup & Hpos & Hnow & _).
      rewrite Hup in Hrow. rewrite Hkey, Hk, lookup_insert_eq in Hrow.
      injection Hrow as <-.
      exists c. split; [exists calls, []; split; [reflexivity | constructor] |].
      rewrite Hpos. auto.
    + rewrite UpsertProofs.upsert_other_key in Hrow
        by (rewrite (UpsertProofs.storedKey_storable _ Hstorable); congruence).
      destruct (IH row Hall Hrow)
        as (call & (before & after & -> & Hafter) & Hkey' & Hpos & Hsame' & Hnow).
      exists call. split; [| auto].
      exists before, (after ++ [c]). split; [rewrite <- app_assoc; reflexivity |].
      apply Forall_app. split; [exact Hafter |].
      constructor; [congruence | constructor].
Qed.




Lemma query_of_empty (chainId : Z) (lo hi : Q) :
  getLiquidatablePositions chainId lo hi emptyTable = [].
Proof.
  unfold getLiquidatablePositions, emptyTable. rewrite map_to_list_empty. reflexivity.
Qed.

Lemma answer_row_is_last_write (calls : list Call) (chainId : Z) (lo hi : Q)
    (row : LiquidationPosition) :
  Forall (fun call => storable (call_position call)) calls ->
  In row (getLiquidatablePositions chainId lo hi (upsertAllIn keyed calls emptyTable)) ->
  exists call,
    lastWrite calls call /\
    stored (call_position call) = Some (row_position row) /\
    samePosition (row_position row) (call_position call) /\
    last_updated row = call_now call /\
    chain_id (call_position call) = chainId /\
    is_liquidatable (call_position call) = true /\
    (lo <= health_factor (call_position call) <= hi)%Q.
Proof.
  intros Hall Hin. apply query_In in Hin as [[k Hk] Hsel].
  apply stored_is_last in Hk as (call & Hlast & _ & Hpos & Hsame & Hnow);
    [| exact Hall].
  apply selected_spec in Hsel.
  pose proof Hsame as (Hchain & _ & _ & _ & _ & _ & Hhf & _ & _ & Hliq).
  exists call. rewrite <- Hchain, <- Hliq, <- Hhf. tauto.
Qed.



(** X17: the summary of a chain counts only rows flagged liquidatable:
    [totalPositions] always equals [liquidatablePositions], and a chain
    none of whose positions is flagged liquidatable by its last write
    (of values the columns hold as they are given) reports no position at
    all, with the table as schema.sql declares it and also with the
    conflict target declared unique. *)
Theorem summary_counts_liquidatable_only
    (table : option (gmap Key LiquidationPosition)) (calls : list Call) (chainId : Z) :
  totalPositions (getChainHealthSummary table chainId)
  = liquidatablePositions (getChainHealthSummary table chainId) /\
  (Forall (fun call => storable (call_position call)) calls ->
   (forall call, lastWrite calls call -> chain_id (call_position call) = chainId ->
                 is_liquidatable (call_position call) = false) ->
   totalPositions (getChainHealthSummary (Some (upsertAll calls emptyTable)) chainId)
   = 0%nat) /\
  (Forall (fun call => storable (call_position call)) calls ->
   (forall call, lastWrite calls call -> chain_id (call_position call) = chainId ->
                 is_liquidatable (call_position call) = false) ->
   totalPositions (getChainHealthSummary (Some (upsertAllIn keyed calls emptyTable)) chainId)
   = 0%nat).
Proof.
  split; [| split].
  - destruct table as [t |]; [| reflexivity].
    cbn [getChainHealthSummary totalPositions liquidatablePositions].
    f_equal. symmetry. apply forallb_filter_id. apply forallb_forall.
    intros row Hin. apply query_In in Hin as [_ Hsel].
    apply selected_spec in Hsel. tauto.
  - intros _ _. cbn [getChainHealthSummary totalPositions].
    rewrite UpsertProofs.upsertAll_unchanged, query_of_empty. reflexivity.
  - intros Hall Hnone. cbn [getChainHealthSummary totalPositions].
    destruct (getLiquidatablePositions chainId 0 2 (upsertAllIn keyed calls emptyTable))
      as [| row rest] eqn:Hanswer; [reflexivity |].
    exfalso.
    destruct (answer_row_is_last_write calls chainId 0 2 row Hall)
      as (call & Hlast & _ & _ & _ & Hchain & Hliq & _).
    { rewrite Hanswer. left. reflexivity. }
    rewrite (Hnone call Hlast Hchain) in Hliq. discriminate.
Qed.

End QueryProofs.

(* ===================================================================== *)
(** * The life cycle of a connection *)
(* ===================================================================== *)

Module LifecycleProofs.

Import WebSocketManager Samples.

(** ** The budget of reconnection attempts *)

Lemma scheduleReconnect_exhausted (m : Manager) (chain : Z) (c : WebSocketConnection) :
  connections m !! chain = Some c ->
  (maxReconnectAttempts <= reconnectAttempts c)%nat ->
  fst (scheduleReconnect m chain) = (m, None).
Proof.
  intros Hc Hmax. unfold scheduleReconnect. rewrite Hc.
  destruct (Nat.leb_spec maxReconnectAttempts (reconnectAttempts c)); [reflexivity | lia].
Qed.

Lemma scheduleReconnect_arms (m : Manager) (chain : Z) (c : WebSocketConnection) :
  connections m !! chain = Some c ->
  (reconnectAttempts c < maxReconnectAttempts)%nat ->
  exists m',
    fst (scheduleReconnect m chain)
    = (m', Some (mkTimeout chain (backoff (S (reconnectAttempts c))))) /\
    connections m' !! chain = Some (withAttempts c (S (reconnectAttempts c))) /\
    reconnectIntervals m' !! chain
    = Some (mkTimeout chain (backoff (S (reconnectAttempts c)))).
Proof.
  intros Hc Hlt. unfold scheduleReconnect. rewrite Hc.
  destruct (Nat.leb_spec maxReconnectAttempts (reconnectAttempts c)); [lia |].
  eexists. split; [reflexivity |]. cbn [connections reconnectIntervals].
  split; apply lookup_insert_eq.
Qed.

(** The timers of [k] failures in a row, for a counter standing at [a]:
    one for each attempt left, with doubling delays, then none. *)
Lemma failures_from (k : nat) (m : Manager) (chain : Z) (c : WebSocketConnection) :
  connections m !! chain = Some c ->
  snd (failures k m chain)
  = map (fun i => Some (mkTimeout chain (backoff (S (reconnectAttempts c + i)))))
        (seq 0 (Nat.min k (maxReconnectAttempts - reconnectAttempts c)))
    ++ repeat None (k - (maxReconnectAttempts - reconnectAttempts c)) /\
  exists c',
    connections (fst (failures k m chain)) !! chain = Some c' /\
    reconnectAttempts c'
    = (reconnectAttempts c + Nat.min k (maxReconnectAttempts - reconnectAttempts c))%nat.
Proof.
  revert m c. induction k as [| k IH]; intros m c Hc.
  - cbn. split; [reflexivity |]. exists c. split; [exact Hc | lia].
  - cbn [failures].
    destruct (Nat.le_gt_cases maxReconnectAttempts (reconnectAttempts c)) as [Hmax | Hlt].
    + pose proof (scheduleReconnect_exhausted m chain c Hc Hmax) as Hs.
      destruct (scheduleReconnect m chain) as [[m' t] log]. cbn [fst] in Hs.
      injection Hs as -> ->.
      destruct (IH m c Hc) as [Htimers (c' & Hc' & Hattempts)].
      destruct (failures k m chain) as [m'' ts]. cbn [fst snd] in *.
      replace (maxReconnectAttempts - reconnectAttempts c)%nat with 0%nat in * by lia.
      rewrite Nat.min_0_r in *. rewrite Nat.sub_0_r in *. cbn [seq map app] in *.
      split.
      * rewrite Htimers. reflexivity.
      * exists c'. split; [exact Hc' | lia].
    + destruct (scheduleReconnect_arms m chain c Hc Hlt) as (m1 & Hs & Hc1 & _).
      destruct (scheduleReconnect m chain) as [[m' t] log]. cbn [fst] in Hs.
      injection Hs as -> ->.
      destruct (IH m1 _ Hc1) as [Htimers (c' & Hc' & Hattempts)].
      destruct (failures k m1 chain) as [m'' ts]. cbn [fst snd] in *.
      cbn [withAttempts reconnectAttempts] in Htimers, Hattempts.
      destruct (maxReconnectAttempts - reconnectAttempts c)%nat as [| r] eqn:Hr; [lia |].
      replace (maxReconnectAttempts - S (reconnectAttempts c))%nat with r in * by lia.
      split.
      * rewrite Htimers. cbn [Nat.min seq map app Nat.sub].
        rewrite Nat.add_0_r. f_equal. f_equal.
        rewrite <- seq_shift, List.map_map.
        apply map_ext. intros i. do 3 f_equal. lia.
      * exists c'. split; [exact Hc' |]. rewrite Hattempts. cbn [Nat.min]. lia.
Qed.

(** X19: a chain has attempts left only up to [maxReconnectAttempts]: of [k]
    failures in a row, the first ones arm a timer each, with delays
    doubling from [reconnectDelay * 2^attempts], and once the counter has
    reached the maximum no failure arms a timer any more; the ['open']
    event gives the full budget back, so that the schedule starts again
    at [reconnectDelay]. *)
Theorem reconnect_budget (m : Manager) (chain : Z) (c : WebSocketConnection) (k : nat) :
  connections m !! chain = Some c ->
  let left := (maxReconnectAttempts - reconnectAttempts c)%nat in
  snd (failures k m chain)
  = map (fun i => Some (mkTimeout chain
                          (reconnectDelay * 2 ^ Z.of_nat (reconnectAttempts c + i))))
        (seq 0 (Nat.min k left))
    ++ repeat None (k - left) /\
  (exists c',
     connections (fst (failures k m chain)) !! chain = Some c' /\
     reconnectAttempts c' = (reconnectAttempts c + Nat.min k left)%nat /\
     (reconnectAttempts c <= maxReconnectAttempts ->
      reconnectAttempts c' <= maxReconnectAttempts)%nat) /\
  (forall now,
     snd (failures k (onOpen m chain now) chain)
     = map (fun i => Some (mkTimeout chain (reconnectDelay * 2 ^ Z.of_nat i)))
           (seq 0 (Nat.min k maxReconnectAttempts))
       ++ repeat None (k - maxReconnectAttempts)).
Proof.
  intros Hc left. subst left.
  destruct (failures_from k m chain c Hc) as [Htimers (c' & Hc' & Hattempts)].
  split; [| split].
  - rewrite Htimers. f_equal. apply map_ext. intros i. unfold backoff.
    replace (Z.of_nat (S (reconnectAttempts c + i)) - 1)
      with (Z.of_nat (reconnectAttempts c + i)) by lia.
    reflexivity.
  - exists c'. split; [exact Hc' |]. split; [exact Hattempts | lia].
  - intros now.
    assert (Hopen : connections (onOpen m chain now) !! chain
                    = Some (mkConnection (chainId c) (chainName c) (ws c) true 0%nat now
                              (subscriptions c))).
    { unfold onOpen. rewrite Hc. cbn [connections]. apply lookup_insert_eq. }
    destruct (failures_from k _ chain _ Hopen) as [Htimers' _].
    cbn [reconnectAttempts] in Htimers'. rewrite Nat.sub_0_r in Htimers'.
    rewrite Htimers'. f_equal. apply map_ext. intros i. unfold backoff.
    replace (Z.of_nat (S (0 + i)) - 1) with (Z.of_nat i) by lia.
    reflexivity.
Qed.

Lemma reconnect_budget_witness :
  let left := (maxReconnectAttempts - reconnectAttempts mainnet)%nat in
  snd (failures 7 fresh 1)
  = map (fun i => Some (mkTimeout 1
                          (reconnectDelay * 2 ^ Z.of_nat (reconnectAttempts mainnet + i))))
        (seq 0 (Nat.min 7 left))
    ++ repeat None (7 - left) /\
  (exists c',
     connections (fst (failures 7 fresh 1)) !! 1 = Some c' /\
     reconnectAttempts c' = (reconnectAttempts mainnet + Nat.min 7 left)%nat /\
     (reconnectAttempts mainnet <= maxReconnectAttempts ->
      reconnectAttempts c' <= maxReconnectAttempts)%nat) /\
  (forall now,
     snd (failures 7 (onOpen fresh 1 now) 1)
     = map (fun i => Some (mkTimeout 1 (reconnectDelay * 2 ^ Z.of_nat i)))
           (seq 0 (Nat.min 7 maxReconnectAttempts))
       ++ repeat None (7 - maxReconnectAttempts)).
Proof.
  apply (reconnect_budget fresh 1 mainnet 7). reflexivity.
Defined.

(** ** Disconnecting *)

(** X20: after the socket of a chain closed, a timer for the reconnection is
    armed; a [disconnect] asked for at that point returns at once: it
    clears no timer and changes nothing, and the [connect] the timer runs
    opens a new socket. *)
Theorem disconnect_while_down_keeps_timer (m : Manager) (pingIntervals : gset Z)
    (chain : Z) (c : WebSocketConnection) :
  connections m !! chain = Some c ->
  (reconnectAttempts c < maxReconnectAttempts)%nat ->
  exists m' timer,
    fst (onClose m chain) = (m', Some timer) /\
    timer = mkTimeout chain (backoff (S (reconnectAttempts c))) /\
    disconnect m' pingIntervals chain = (m', pingIntervals, None, None) /\
    reconnectIntervals m' !! chain = Some timer /\
    forall socket, exists m'' c'',
      connect m' chain (Some socket) = (m'', true, None) /\
      connections m'' !! chain = Some c'' /\
      ws c'' = Some socket.
Proof.
  intros Hc Hlt. unfold onClose. rewrite Hc.
  set (down := mkConnection (chainId c) (chainName c) None false (reconnectAttempts c)
                 (lastPing c) (subscriptions c)).
  assert (Hdown : connections (setConnection m chain down) !! chain = Some down)
    by apply lookup_insert_eq.
  destruct (scheduleReconnect_arms _ chain down Hdown Hlt) as (m' & Hs & Hc' & Htimer).
  cbn [down reconnectAttempts] in Hs, Hc', Htimer.
  exists m', (mkTimeout chain (backoff (S (reconnectAttempts c)))).
  split; [exact Hs |]. split; [reflexivity |].
  split; [| split; [exact Htimer |]].
  - unfold disconnect. rewrite Hc'. reflexivity.
  - intros socket. unfold connect. rewrite Hc'. cbn [withAttempts isConnected down].
    eexists _, _. split; [reflexivity |]. split; [apply lookup_insert_eq | reflexivity].
Qed.

Lemma disconnect_while_down_keeps_timer_witness :
  exists m' timer,
    fst (onClose live 1) = (m', Some timer) /\
    timer = mkTimeout 1 (backoff (S (reconnectAttempts online))) /\
    disconnect m' ∅ 1 = (m', ∅, None, None) /\
    reconnectIntervals m' !! 1 = Some timer /\
    forall socket, exists m'' c'',
      connect m' 1 (Some socket) = (m'', true, None) /\
      connections m'' !! 1 = Some c'' /\
      ws c'' = Some socket.
Proof.
  apply (disconnect_while_down_keeps_timer live ∅ 1 online); [reflexivity |].
  unfold maxReconnectAttempts. cbn. lia.
Defined.

(** X21: a [disconnect] of a connected chain closes its socket, clears the
    timers of the chain and empties the subscriptions; it leaves the
    handlers of the socket in place, so that the ['close'] event of that
    socket arms a timer for a reconnection. *)
Theorem manual_disconnect_reconnects (m : Manager) (pingIntervals : gset Z)
    (chain : Z) (c : WebSocketConnection) :
  connections m !! chain = Some c ->
  isConnected c = true ->
  (reconnectAttempts c < maxReconnectAttempts)%nat ->
  exists m1 pingIntervals1 m2 c1,
    disconnect m pingIntervals chain
    = (m1, pingIntervals1, reconnectIntervals m !! chain, ws c) /\
    connections m1 !! chain = Some c1 /\
    isConnected c1 = false /\ ws c1 = None /\ subscriptions c1 = [] /\
    reconnectIntervals m1 !! chain = None /\
    (chain ∉ pingIntervals1) /\
    fst (onClose m1 chain)
    = (m2, Some (mkTimeout chain (backoff (S (reconnectAttempts c))))) /\
    reconnectIntervals m2 !! chain
    = Some (mkTimeout chain (backoff (S (reconnectAttempts c)))).
Proof.
  intros Hc Hconnected Hlt.
  set (off := mkConnection (chainId c) (chainName c) None false (reconnectAttempts c)
                (lastPing c) []).
  set (m1 := setConnection (mkManager (connections m) (delete chain (reconnectIntervals m)))
               chain off).
  assert (Hoff : connections m1 !! chain = Some off) by apply lookup_insert_eq.
  set (down := mkConnection (chainId off) (chainName off) None false (reconnectAttempts off)
                 (lastPing off) (subscriptions off)).
  assert (Hdown : connections (setConnection m1 chain down) !! chain = Some down)
    by apply lookup_insert_eq.
  destruct (scheduleReconnect_arms _ chain down Hdown Hlt) as (m2 & Hs & _ & Htimer).
  exists m1, (pingIntervals ∖ {[ chain ]}), m2, off.
  split; [| split; [exact Hoff |]].
  - unfold disconnect, clearIntervals. rewrite Hc, Hconnected. reflexivity.
  - repeat split.
    + cbn. apply lookup_delete_eq.
    + apply not_elem_of_difference. right. apply elem_of_singleton. reflexivity.
    + unfold onClose. rewrite Hoff. exact Hs.
    + exact Htimer.
Qed.

Lemma manual_disconnect_reconnects_witness :
  exists m1 pingIntervals1 m2 c1,
    disconnect live {[ 1 ]} 1 = (m1, pingIntervals1, reconnectIntervals live !! 1, ws online) /\
    connections m1 !! 1 = Some c1 /\
    isConnected c1 = false /\ ws c1 = None /\ subscriptions c1 = [] /\
    reconnectIntervals m1 !! 1 = None /\
    (1 ∉ pingIntervals1) /\
    fst (onClose m1 1) = (m2, Some (mkTimeout 1 (backoff (S (reconnectAttempts online))))) /\
    reconnectIntervals m2 !! 1
    = Some (mkTimeout 1 (backoff (S (reconnectAttempts online)))).
Proof.
  apply (manual_disconnect_reconnects live {[ 1 ]} 1 online);
    [reflexivity | reflexivity |].
  unfold maxReconnectAttempts. cbn. lia.
Defined.

(** X22: [cleanup] clears every reconnection timer the manager holds and closes
    the socket of every connected chain; the manager it leaves knows no
    chain, so that afterwards no [connect] opens a socket and no event of
    a socket, and no series of failures, arms a timer. *)
Theorem cleanup_is_final (m : Manager) (pingIntervals : gset Z) :
  let '(m', pingIntervals', cleared, closed) := cleanup m pingIntervals in
  (forall chain timer, reconnectIntervals m !! chain = Some timer -> In timer cleared) /\
  (forall chain c socket,
      connections m !! chain = Some c -> isConnected c = true -> ws c = Some socket ->
      In socket closed) /\
  pingIntervals' = ∅ /\
  (forall chain socket, connect m' chain socket = (m', false, None)) /\
  (forall chain, onClose m' chain = (m', None, [])) /\
  (forall chain, onError m' chain = (m', None, [])) /\
  (forall chain k, failures k m' chain = (m', repeat None k)) /\
  (forall chain, disconnect m' pingIntervals' chain = (m', pingIntervals', None, None)).
Proof.
  unfold cleanup.
  assert (Hfail : forall chain k,
            failures k (mkManager ∅ ∅) chain = (mkManager ∅ ∅, repeat None k)).
  { intros chain k. induction k as [| k IH]; [reflexivity |].
    cbn [failures]. unfold scheduleReconnect. cbn [connections].
    rewrite lookup_empty. rewrite IH. reflexivity. }
  split; [| split; [| split; [reflexivity |]]].
  - intros chain timer Ht. apply in_map_iff. exists (chain, timer).
    split; [reflexivity |]. apply list_elem_of_In, elem_of_map_to_list. exact Ht.
  - intros chain c socket Hc Hconnected Hws.
    apply list_elem_of_In. apply list_elem_of_omap. exists c.
    split; [| rewrite Hconnected; exact Hws].
    apply list_elem_of_In. apply in_map_iff. exists (chain, c).
    split; [reflexivity |]. apply list_elem_of_In, elem_of_map_to_list. exact Hc.
  - repeat split; try exact Hfail; intros chain; intros;
      unfold connect, onClose, onError, disconnect; cbn [connections];
      rewrite lookup_empty; reflexivity.
Qed.

(** ** A failure reported twice *)

(** X27: a failure that reaches both the ['error'] and the ['close'] handler
    uses up two attempts: each handler arms a timer of its own, the second
    with twice the delay of the first, and only the second is recorded, so
    that [clearIntervals] clears the second alone. *)
Theorem error_then_close_uses_two_attempts (m : Manager) (pingIntervals : gset Z)
    (chain : Z) (c : WebSocketConnection) :
  connections m !! chain = Some c ->
  (reconnectAttempts c + 2 <= maxReconnectAttempts)%nat ->
  exists m1 m2 c2,
    fst (onError m chain)
    = (m1, Some (mkTimeout chain (backoff (reconnectAttempts c + 1)))) /\
    fst (onClose m1 chain)
    = (m2, Some (mkTimeout chain (backoff (reconnectAttempts c + 2)))) /\
    backoff (reconnectAttempts c + 2) = 2 * backoff (reconnectAttempts c + 1) /\
    connections m2 !! chain = Some c2 /\
    reconnectAttempts c2 = (reconnectAttempts c + 2)%nat /\
    isConnected c2 = false /\ ws c2 = None /\
    snd (clearIntervals m2 pingIntervals chain)
    = Some (mkTimeout chain (backoff (reconnectAttempts c + 2))).
Proof.
  intros Hc Hleft.
  set (failed := mkConnection (chainId c) (chainName c) (ws c) false (reconnectAttempts c)
                   (lastPing c) (subscriptions c)).
  assert (Hfailed : connections (setConnection m chain failed) !! chain = Some failed)
    by apply lookup_insert_eq.
  destruct (scheduleReconnect_arms _ chain failed Hfailed) as (m1 & Hs1 & Hc1 & _);
    [cbn; lia |].
  cbn [failed reconnectAttempts] in Hs1, Hc1.
  set (c1 := withAttempts failed (S (reconnectAttempts c))) in *.
  set (down := mkConnection (chainId c1) (chainName c1) None false (reconnectAttempts c1)
                 (lastPing c1) (subscriptions c1)).
  assert (Hdown : connections (setConnection m1 chain down) !! chain = Some down)
    by apply lookup_insert_eq.
  destruct (scheduleReconnect_arms _ chain down Hdown) as (m2 & Hs2 & Hc2 & Htimer);
    [cbn; lia |].
  cbn [down c1 withAttempts reconnectAttempts] in Hs2, Hc2, Htimer.
  exists m1, m2, (withAttempts down (S (S (reconnectAttempts c)))).
  replace (reconnectAttempts c + 1)%nat with (S (reconnectAttempts c)) by lia.
  replace (reconnectAttempts c + 2)%nat with (S (S (reconnectAttempts c))) by lia.
  split; [unfold onError; rewrite Hc; exact Hs1 |].
  split; [unfold onClose; rewrite Hc1; exact Hs2 |].
  split.
  { unfold backoff.
    replace (Z.of_nat (S (S (reconnectAttempts c))) - 1)
      with (Z.succ (Z.of_nat (S (reconnectAttempts c)) - 1)) by lia.
    rewrite Z.pow_succ_r by lia. ring. }
  split; [exact Hc2 |].
  repeat split. exact Htimer.
Qed.

Lemma error_then_close_uses_two_attempts_witness :
  exists m1 m2 c2,
    fst (onError live 1)
    = (m1, Some (mkTimeout 1 (backoff (reconnectAttempts online + 1)))) /\
    fst (onClose m1 1)
    = (m2, Some (mkTimeout 1 (backoff (reconnectAttempts online + 2)))) /\
    backoff (reconnectAttempts online + 2) = 2 * backoff (reconnectAttempts online + 1) /\
    connections m2 !! 1 = Some c2 /\
    reconnectAttempts c2 = (reconnectAttempts online + 2)%nat /\
    isConnected c2 = false /\ ws c2 = None /\
    snd (clearIntervals m2 ∅ 1)
    = Some (mkTimeout 1 (backoff (reconnectAttempts online + 2))).
Proof.
  apply (error_then_close_uses_two_attempts live ∅ 1 online); [reflexivity |].
  unfold maxReconnectAttempts. cbn. lia.
Defined.

(** ** Subscribing *)

(** X23: the route that connects a chain answers with the success message as
    soon as a socket was created, but its subscription to new heads is
    made before the socket is open: for a chain that was not connected
    nothing is sent and the list of subscriptions stays as it was.  Only
    for a chain that was already connected is a request sent, on the old
    socket, and each call adds one more entry to the list. *)
Theorem connect_route_subscription (m : Manager) (chain : Z) (c : WebSocketConnection)
    (socket : Z) (sendOk : bool) :
  connections m !! chain = Some c ->
  (isConnected c = false ->
   exists m' c',
     Routes.connectRoute m chain (Some socket) sendOk = (m', true, None, None) /\
     connections m' !! chain = Some c' /\
     ws c' = Some socket /\ isConnected c' = false /\
     subscriptions c' = subscriptions c) /\
  (forall old, isConnected c = true -> ws c = Some old ->
   exists m' c',
     Routes.connectRoute m chain (Some socket) true = (m', true, Some old, None) /\
     connections m' !! chain = Some c' /\
     ws c' = Some old /\
     subscriptions c' = subscriptions c ++ ["newHeads"%string]).
Proof.
  intros Hc. split.
  - intros Hdown. unfold Routes.connectRoute, connect. rewrite Hc, Hdown.
    cbv beta iota zeta.
    unfold subscribeToNewHeads. cbn [setConnection connections].
    rewrite lookup_insert_eq. cbn [isConnected].
    eexists _, _. split; [reflexivity |]. cbn [connections].
    split; [apply lookup_insert_eq |]. repeat split.
  - intros old Hup Hws. unfold Routes.connectRoute, connect. rewrite Hc, Hup.
    cbv beta iota zeta.
    unfold subscribeToNewHeads. rewrite Hc, Hup, Hws.
    cbv beta iota zeta.
    eexists _, _. split; [reflexivity |]. cbn [setConnection connections].
    split; [apply lookup_insert_eq |]. split; reflexivity.
Qed.

Lemma connect_route_subscription_witness :
  exists m' c',
    Routes.connectRoute fresh 1 (Some 12) true = (m', true, None, None) /\
    connections m' !! 1 = Some c' /\
    ws c' = Some 12 /\ isConnected c' = false /\
    subscriptions c' = subscriptions mainnet.
Proof.
  apply (connect_route_subscription fresh 1 mainnet 12 true); reflexivity.
Defined.

End LifecycleProofs.

(* ===================================================================== *)
(** * The amounts of an opportunity *)
(* ===================================================================== *)

Module OpportunityProofs.

Import HealthFactorCalculator Samples.

(** X18: for amounts that are not negative and a bonus between 0 and 100%, the
    amount of an opportunity is not negative and twice it exceeds neither
    the debt nor the collateral; the potential profit lies between 0 and
    that amount; and the gas estimate is the answer of the node, or
    500000 when the estimation fails. *)
Theorem opportunity_amounts_bounded (estimateGas : Z -> option Z)
    (liquidationBonus : Z) (position : DatabaseService.PositionInput) :
  0 <= DatabaseService.debt_amount position ->
  0 <= DatabaseService.collateral_amount position ->
  0 <= liquidationBonus <= parseUnits_1 ->
  let opportunity := analyzeLiquidationOpportunity estimateGas liquidationBonus position in
  0 <= opp_maxLiquidationAmount opportunity /\
  2 * opp_maxLiquidationAmount opportunity <= DatabaseService.debt_amount position /\
  2 * opp_maxLiquidationAmount opportunity <= DatabaseService.collateral_amount position /\
  0 <= opp_potentialProfit opportunity <= opp_maxLiquidationAmount opportunity /\
  opp_gasEstimate opportunity
  = default DEFAULT_GAS_ESTIMATE (estimateGas (opp_maxLiquidationAmount opportunity)).
Proof.
  intros Hdebt Hcollateral Hbonus opportunity. subst opportunity.
  unfold analyzeLiquidationOpportunity.
  cbn [opp_maxLiquidationAmount opp_potentialProfit opp_gasEstimate].
  set (debt := DatabaseService.debt_amount position) in *.
  set (collateral := DatabaseService.collateral_amount position) in *.
  assert (Hamount : maxLiquidationAmount debt collateral
                    = Z.min (debt / 2) (collateral / 2)).
  { unfold maxLiquidationAmount, maxLiquidationDebt.
    rewrite OrchestratorProofs.maxLiquidationCollateral_half.
    rewrite !Z.quot_div_nonneg by lia.
    destruct (Z.ltb_spec (debt / 2) (collateral / 2)); lia. }
  rewrite Hamount.
  set (amount := Z.min (debt / 2) (collateral / 2)).
  pose proof (Z.div_pos debt 2 Hdebt ltac:(lia)) as Hd0.
  pose proof (Z.div_pos collateral 2 Hcollateral ltac:(lia)) as Hc0.
  pose proof (Z.mul_div_le debt 2 ltac:(lia)) as Hd.
  pose proof (Z.mul_div_le collateral 2 ltac:(lia)) as Hc.
  assert (Ha0 : 0 <= amount) by (unfold amount; lia).
  unfold parseUnits_1 in *.
  assert (Hunit : 0 < 10 ^ 18) by reflexivity.
  repeat split; try (unfold amount; lia).
  - rewrite Z.quot_div_nonneg by nia. apply Z.div_pos; nia.
  - rewrite Z.quot_div_nonneg by nia.
    apply Z.div_le_upper_bound; nia.
Qed.

Lemma opportunity_amounts_bounded_witness :
  let opportunity :=
    analyzeLiquidationOpportunity (fun _ => None) (5 * 10 ^ 16)
      (DatabaseService.mkInput 1 "0xu" "WETH" "DAI" collateral10 debt100
         (80 # 100) (8 # 10) (5 # 100) true) in
  0 <= opp_maxLiquidationAmount opportunity /\
  2 * opp_maxLiquidationAmount opportunity <= debt100 /\
  2 * opp_maxLiquidationAmount opportunity <= collateral10 /\
  0 <= opp_potentialProfit opportunity <= opp_maxLiquidationAmount opportunity /\
  opp_gasEstimate opportunity
  = default DEFAULT_GAS_ESTIMATE ((fun _ => None) (opp_maxLiquidationAmount opportunity)).
Proof.
  apply (opportunity_amounts_bounded (fun _ => None) (5 * 10 ^ 16)
           (DatabaseService.mkInput 1 "0xu" "WETH" "DAI" collateral10 debt100
              (80 # 100) (8 # 10) (5 # 100) true));
    vm_compute; intuition congruence.
Defined.

End OpportunityProofs.

(* ===================================================================== *)
(** * The stored positions and the activity log *)
(* ===================================================================== *)

Module StorageProofs.

Import AaveService MemStorage Routes Statements Samples.

Lemma set_fresh (id : string) (v : LiquidationPosition) (m : Positions) :
  ~ In id (map fst m) -> set id v m = m ++ [(id, v)].
Proof.
  induction m as [| [id' v'] m IH]; intros Hfresh; cbn [set app]; [reflexivity |].
  cbn [map fst In] in Hfresh.
  destruct (String.eqb_spec id' id) as [-> | Hne]; [tauto |].
  rewrite IH by tauto. reflexivity.
Qed.

Lemma addAll_fresh (uuid : nat -> string) (positions : list LiquidationPosition) :
  forall (i : nat) (m : Positions),
    (forall j, (j < length positions)%nat -> ~ In (uuid (i + j)%nat) (map fst m)) ->
    (forall j k, (j < k < length positions)%nat -> uuid (i + j)%nat <> uuid (i + k)%nat) ->
    addAll uuid i positions m
    = (m ++ map (fun p => (pos_id p, p)) (stamped uuid i positions),
       stamped uuid i positions).
Proof.
  induction positions as [| p rest IH]; intros i m Hfresh Hdistinct;
    cbn [addAll stamped map].
  - rewrite app_nil_r. reflexivity.
  - unfold addLiquidationPosition.
    rewrite set_fresh.
    2: { specialize (Hfresh 0%nat). rewrite Nat.add_0_r in Hfresh.
         apply Hfresh. cbn. lia. }
    rewrite (IH (S i)).
    + cbn [withId pos_id]. rewrite <- app_assoc. reflexivity.
    + intros j Hj. rewrite List.map_app, in_app_iff. cbn [map fst In].
      intros [Hin | [Heq | []]].
      * apply (Hfresh (S j)); [cbn; lia |].
        replace (i + S j)%nat with (S i + j)%nat by lia. exact Hin.
      * apply (Hdistinct 0%nat (S j)); [cbn; lia |].
        rewrite Nat.add_0_r. replace (i + S j)%nat with (S i + j)%nat by lia.
        exact Heq.
    + intros j k Hjk.
      replace (S i + j)%nat with (i + S j)%nat by lia.
      replace (S i + k)%nat with (i + S k)%nat by lia.
      apply Hdistinct. cbn. lia.
Qed.

Lemma remove_app (id : string) (m1 m2 : Positions) :
  removeLiquidationPosition id (m1 ++ m2)
  = removeLiquidationPosition id m1 ++ removeLiquidationPosition id m2.
Proof. unfold removeLiquidationPosition. apply List.filter_app. Qed.

Lemma removeAll_app (existing : list LiquidationPosition) (m1 m2 : Positions) :
  removeAll existing (m1 ++ m2) = removeAll existing m1 ++ removeAll existing m2.
Proof.
  unfold removeAll. revert m1 m2.
  induction existing as [| x existing IH]; intros m1 m2; cbn [fold_left]; [reflexivity |].
  rewrite remove_app. apply IH.
Qed.

Lemma remove_keys (id : string) (m : Positions) (k : string) :
  In k (map fst (removeLiquidationPosition id m)) <-> In k (map fst m) /\ k <> id.
Proof.
  unfold removeLiquidationPosition. rewrite !in_map_iff. split.
  - intros ([k' v] & <- & Hin). apply filter_In in Hin as [Hin Hne].
    cbn [fst] in *. apply negb_true_iff in Hne.
    split; [exists (k', v); auto |].
    intros ->. rewrite String.eqb_refl in Hne. discriminate.
  - intros [([k' v] & <- & Hin) Hne]. exists (k', v). split; [reflexivity |].
    apply filter_In. split; [exact Hin |]. cbn [fst] in *.
    apply negb_true_iff. apply String.eqb_neq. exact Hne.
Qed.

Lemma removeAll_covered (existing : list LiquidationPosition) (m : Positions) :
  (forall k, In k (map fst m) -> In k (map pos_id existing)) ->
  removeAll existing m = [].
Proof.
  unfold removeAll. revert m.
  induction existing as [| x existing IH]; intros m Hcovered; cbn [fold_left].
  - destruct m as [| [k v] m]; [reflexivity |].
    destruct (Hcovered k); cbn; auto.
  - apply IH. intros k Hk. apply remove_keys in Hk as [Hk Hne].
    destruct (Hcovered k Hk) as [Heq | Hin]; [congruence | exact Hin].
Qed.

Lemma removeAll_untouched (existing : list LiquidationPosition) (m : Positions) :
  (forall k, In k (map fst m) -> ~ In k (map pos_id existing)) ->
  removeAll existing m = m.
Proof.
  unfold removeAll. revert m.
  induction existing as [| x existing IH]; intros m Hnone; cbn [fold_left]; [reflexivity |].
  assert (Hsame : removeLiquidationPosition (pos_id x) m = m).
  { unfold removeLiquidationPosition. apply forallb_filter_id. apply forallb_forall.
    intros [k v] Hin. cbn [fst]. apply negb_true_iff, String.eqb_neq.
    intros ->. apply (Hnone (pos_id x)); [| left; reflexivity].
    apply in_map_iff. exists (pos_id x, v). auto. }
  rewrite Hsame. apply IH. intros k Hk Hin. apply (Hnone k Hk). right. exact Hin.
Qed.

Lemma keyedById_ids (m : Positions) :
  keyedById m -> map pos_id (getLiquidationPositions m) = map fst m.
Proof.
  unfold keyedById, getLiquidationPositions. intros Hkeyed.
  rewrite List.map_map. apply map_ext_in. intros entry Hin.
  rewrite List.Forall_forall in Hkeyed. apply Hkeyed. exact Hin.
Qed.

Lemma stamped_entries (uuid : nat -> string) (i : nat) (positions : list LiquidationPosition) :
  map fst (map (fun p => (pos_id p, p)) (stamped uuid i positions))
  = map uuid (seq i (length positions)) /\
  map snd (map (fun p => (pos_id p, p)) (stamped uuid i positions))
  = stamped uuid i positions /\
  keyedById (map (fun p => (pos_id p, p)) (stamped uuid i positions)).
Proof.
  revert i. induction positions as [| p rest IH]; intros i; cbn.
  - repeat split. constructor.
  - destruct (IH (S i)) as (Hfst & Hsnd & Hkeyed).
    rewrite Hfst, Hsnd. repeat split. constructor; [reflexivity | exact Hkeyed].
Qed.

(** X24: with identifiers that are new and distinct, and a storage that keeps
    every position under its own [id], the callback of the monitoring
    loop leaves in the storage exactly the positions of the scan, in the
    order of the scan, each with the identifier given to it; these are
    the positions sent to the clients, and the initial scan, which
    removes before it adds, ends in the same storage. *)
Theorem scan_replaces_stored_positions (uuid : nat -> string)
    (positions : list LiquidationPosition) (m : Positions) :
  keyedById m ->
  (forall i, (i < length positions)%nat -> ~ In (uuid i) (map fst m)) ->
  (forall i j, (i < j < length positions)%nat -> uuid i <> uuid j) ->
  exists m',
    replacePositions uuid positions m = (m', stamped uuid 0 positions) /\
    initialPositions uuid positions m = (m', stamped uuid 0 positions) /\
    getLiquidationPositions m' = stamped uuid 0 positions /\
    map fst m' = map uuid (seq 0 (length positions)) /\
    keyedById m'.
Proof.
  intros Hkeyed Hfresh Hdistinct.
  destruct (stamped_entries uuid 0 positions) as (Hfst & Hsnd & Hnew).
  exists (map (fun p => (pos_id p, p)) (stamped uuid 0 positions)).
  split; [| split; [| split; [exact Hsnd | split; [exact Hfst | exact Hnew]]]].
  - unfold replacePositions.
    rewrite (addAll_fresh uuid positions 0 m) by (cbn; auto).
    f_equal. rewrite removeAll_app.
    rewrite removeAll_covered.
    2: { intros k Hk. rewrite keyedById_ids by exact Hkeyed. exact Hk. }
    rewrite removeAll_untouched; [reflexivity |].
    intros k Hk. rewrite keyedById_ids by exact Hkeyed.
    rewrite Hfst in Hk. apply in_map_iff in Hk as (i & <- & Hi).
    apply in_seq in Hi. apply Hfresh. lia.
  - unfold initialPositions.
    rewrite removeAll_covered.
    2: { intros k Hk. rewrite keyedById_ids by exact Hkeyed. exact Hk. }
    rewrite (addAll_fresh uuid positions 0 []); [reflexivity | |].
    + intros j _ [].
    + cbn. auto.
Qed.

Lemma scan_replaces_stored_positions_witness :
  exists m',
    replacePositions nextId [found; found] [("old"%string, withId found "old")]
    = (m', stamped nextId 0 [found; found]) /\
    initialPositions nextId [found; found] [("old"%string, withId found "old")]
    = (m', stamped nextId 0 [found; found]) /\
    getLiquidationPositions m' = stamped nextId 0 [found; found] /\
    map fst m' = map nextId (seq 0 (length [found; found])) /\
    keyedById m'.
Proof.
  apply (scan_replaces_stored_positions nextId [found; found]
           [("old"%string, withId found "old")]).
  - repeat constructor.
  - intros i Hi. destruct i as [| [| i]]; cbn in *; [| | lia];
      intros [H | []]; discriminate H.
  - intros i j Hij. destruct i as [| [| i]], j as [| [| j]]; cbn in *;
      try lia; discriminate.
Defined.

(** ** The activity log *)

Lemma slice_last {A : Type} (n : nat) (l : list A) :
  (0 < n)%nat -> slice (- Z.of_nat n) l = skipn (length l - n) l.
Proof.
  intros Hn. unfold slice.
  destruct (Z.ltb_spec (- Z.of_nat n) 0) as [_ | Hge]; [| lia].
  rewrite Z.opp_involutive, Nat2Z.id. reflexivity.
Qed.

(** X25: the log never holds more than 1000 entries: an entry is added at the
    end, and of 1001 entries the oldest is dropped.  Read with a positive
    limit, the log gives its newest entries, newest first, at most
    [limit] of them, the entry just added first; read with the limit 0 it
    gives every entry. *)
Theorem activity_log_window (uuid message type : string)
    (activityLogs : list ActivityLog) (limit : nat) :
  (length activityLogs <= 1000)%nat ->
  let logs := fst (addActivityLog uuid message type activityLogs) in
  let entry := snd (addActivityLog uuid message type activityLogs) in
  (length logs <= 1000)%nat /\
  (exists dropped,
     activityLogs ++ [entry] = dropped ++ logs /\ (length dropped <= 1)%nat /\
     (length activityLogs < 1000 -> dropped = [])%nat) /\
  ((0 < limit)%nat ->
   getActivityLogs (Z.of_nat limit) logs = firstn limit (rev logs) /\
   hd_error (getActivityLogs (Z.of_nat limit) logs) = Some entry) /\
  getActivityLogs 0 logs = rev logs.
Proof.
  intros Hlen logs entry. subst logs entry.
  unfold addActivityLog. cbn [fst snd].
  set (entry := mkActivityLog uuid message type).
  set (pushed := activityLogs ++ [entry]).
  assert (Hpushed : length pushed = S (length activityLogs)).
  { unfold pushed. rewrite length_app. cbn. lia. }
  assert (Hwindow : exists dropped logs,
            (if (1000 <? length pushed)%nat then slice (-1000) pushed else pushed) = logs /\
            pushed = dropped ++ logs /\ (length dropped <= 1)%nat /\
            (length activityLogs < 1000 -> dropped = [])%nat /\
            (length logs <= 1000)%nat /\
            exists older, logs = older ++ [entry]).
  { destruct (Nat.ltb_spec 1000 (length pushed)) as [Hover | Hfits].
    - exists (firstn (length pushed - 1000) pushed), (skipn (length pushed - 1000) pushed).
      split; [apply (slice_last 1000 pushed); lia |].
      split; [symmetry; apply firstn_skipn |].
      split; [rewrite length_firstn; lia |].
      split; [intros; lia |].
      split; [rewrite length_skipn; lia |].
      exists (skipn (length pushed - 1000) activityLogs).
      unfold pushed at 2. rewrite skipn_app.
      replace (length pushed - 1000 - length activityLogs)%nat with 0%nat by lia.
      reflexivity.
    - exists [], pushed. repeat split; try (cbn; lia).
      exists activityLogs. reflexivity. }
  destruct Hwindow as (dropped & logs & -> & Hsplit & Hdropped & Hnone & Hlogs & older & Holder).
  split; [exact Hlogs |].
  split; [exists dropped; auto |].
  split.
  - intros Hlimit. unfold getActivityLogs.
    rewrite (slice_last limit logs Hlimit).
    rewrite <- firstn_rev. split; [reflexivity |].
    rewrite Holder, rev_app_distr. cbn [rev app].
    destruct limit; [lia | reflexivity].
  - unfold getActivityLogs, slice. cbn. reflexivity.
Qed.

Lemma activity_log_window_witness :
  let logs := fst (addActivityLog "id-1" "scan" "info" [mkActivityLog "id-0" "start" "info"]) in
  let entry := snd (addActivityLog "id-1" "scan" "info" [mkActivityLog "id-0" "start" "info"]) in
  (length logs <= 1000)%nat /\
  (exists dropped,
     [mkActivityLog "id-0" "start" "info"] ++ [entry] = dropped ++ logs /\
     (length dropped <= 1)%nat /\
     (length [mkActivityLog "id-0" "start" "info"] < 1000 -> dropped = [])%nat) /\
  ((0 < 1)%nat ->
   getActivityLogs (Z.of_nat 1) logs = firstn 1 (rev logs) /\
   hd_error (getActivityLogs (Z.of_nat 1) logs) = Some entry) /\
  getActivityLogs 0 logs = rev logs.
Proof.
  apply (activity_log_window "id-1" "scan" "info" [mkActivityLog "id-0" "start" "info"] 1).
  cbn. lia.
Defined.

End StorageProofs.

(* ===================================================================== *)
(** * The two estimates of the flash-loan fee *)
(* ===================================================================== *)

Module FeeProofs.

Import SimpleLiquidator FlashLoanService.

(** X26: the service and the contract do not estimate the same fee.  For an
    amount the contract can scale, the contract's estimate is 5 basis
    points of the amount, rounded down, and the service's is 9 basis
    points, rounded down: the service's is never the smaller one, and
    from an amount of 10000 units on it is the greater.  The service
    reports the fee alone as the total cost. *)
Theorem fee_estimates_differ (amount cost : Z) :
  0 <= amount ->
  estimateFlashLoanCost amount = Ok cost ->
  cost = amount * 5 / 10000 /\
  getFlashLoanFees true (Some amount) = (amount * 9 / 10000, amount * 9 / 10000) /\
  cost <= fst (getFlashLoanFees true (Some amount)) /\
  (10000 <= amount -> cost < fst (getFlashLoanFees true (Some amount))) /\
  snd (getFlashLoanFees true (Some amount)) = fst (getFlashLoanFees true (Some amount)).
Proof.
  intros Hamount Hcost.
  unfold estimateFlashLoanCost, FLASH_LOAN_PREMIUM_BPS in Hcost.
  unfold checked_mul in Hcost. destruct (_ <=? _); [| discriminate].
  cbn [bind] in Hcost. unfold checked_div in Hcost. cbn in Hcost.
  injection Hcost as <-.
  assert (Hfee : (amount * flashLoanFeeRate) ÷ FlashLoanService.parseUnits_1
                 = amount * 9 / 10000).
  { unfold flashLoanFeeRate, FlashLoanService.parseUnits_1.
    rewrite Z.quot_div_nonneg by lia.
    replace (amount * (9 * 10 ^ 14)) with (amount * 9 * 10 ^ 14) by ring.
    replace (10 ^ 18) with (10000 * 10 ^ 14) by reflexivity.
    apply Z.div_mul_cancel_r; lia. }
  unfold getFlashLoanFees. cbn [fst snd]. rewrite Hfee.
  repeat split.
  - apply Z.div_le_mono; lia.
  - intros Hbig.
    pose proof (Z.div_mod (amount * 5) 10000 ltac:(lia)) as H5.
    pose proof (Z.mod_pos_bound (amount * 5) 10000 ltac:(lia)) as M5.
    pose proof (Z.div_mod (amount * 9) 10000 ltac:(lia)) as H9.
    pose proof (Z.mod_pos_bound (amount * 9) 10000 ltac:(lia)) as M9.
    lia.
Qed.

Lemma fee_estimates_differ_witness :
  500 = 1000000 * 5 / 10000 /\
  getFlashLoanFees true (Some 1000000) = (1000000 * 9 / 10000, 1000000 * 9 / 10000) /\
  500 <= fst (getFlashLoanFees true (Some 1000000)) /\
  (10000 <= 1000000 -> 500 < fst (getFlashLoanFees true (Some 1000000))) /\
  snd (getFlashLoanFees true (Some 1000000)) = fst (getFlashLoanFees true (Some 1000000)).
Proof.
  apply (fee_estimates_differ 1000000 500); [lia | reflexivity].
Defined.

End FeeProofs.
